(** * Noha: inter-agent messaging (test_agents.py)

    A shallow embedding of [Message], the error classes, [BaseAgent],
    [QuestionAgent] and [AnswerAgent] of [test_agents.py], followed by the
    properties of the mailbox, of [process_messages] and of the assembly of
    the streamed backend response.

    Python [str] values are sequences of code points.  Effects (the agent's
    queue, standard output and its encoding, the wall clock, the HTTP
    backend) are threaded through a state-and-exception monad [M]. *)

From Stdlib Require Import String Ascii DecimalString Bool NArith ZArith Lia List.
Import ListNotations.

Set Implicit Arguments.
Set Warnings "-register-all".

(** ** Python strings *)

Module Str.

(** A Python [str]: a sequence of Unicode code points. *)
Definition pystr := list N.

(** The code points of an ASCII literal. *)
Definition lit (s : string) : pystr := map N_of_ascii (list_ascii_of_string s).

Definition chr (a : ascii) : N := N_of_ascii a.

(** A literal in which the apostrophe stands for the double quote (code
    point 34), for JSON texts. *)
Definition qlit (s : string) : pystr :=
  map (fun c => if N.eqb c 39 then 34%N else c) (lit s).

Fixpoint eqb (a b : pystr) : bool :=
  match a, b with
  | [], [] => true
  | x :: a', y :: b' => N.eqb x y && eqb a' b'
  | _, _ => false
  end.

(** [str.isspace] on one code point, the set used by [str.strip()]. *)
Definition is_space (c : N) : bool :=
  ((9 <=? c) && (c <=? 13) || (28 <=? c) && (c <=? 32)
   || (c =? 133) || (c =? 160) || (c =? 5760)
   || (8192 <=? c) && (c <=? 8202)
   || (c =? 8232) || (c =? 8233) || (c =? 8239) || (c =? 8287)
   || (c =? 12288))%N.

Fixpoint lstrip (s : pystr) : pystr :=
  match s with
  | c :: s' => if is_space c then lstrip s' else s
  | [] => []
  end.

Definition rstrip (s : pystr) : pystr := rev (lstrip (rev s)).

(** [s.strip()] *)
Definition strip (s : pystr) : pystr := rstrip (lstrip s).

(** [s.split(sep)] for a one-character separator: never the empty list. *)
Fixpoint split (sep : N) (s : pystr) : list pystr :=
  match s with
  | [] => [[]]
  | c :: s' =>
      if N.eqb c sep then [] :: split sep s'
      else match split sep s' with
           | l :: ls => (c :: l) :: ls
           | [] => [[c]]
           end
  end.

Fixpoint starts_with (p s : pystr) : bool :=
  match p, s with
  | [], _ => true
  | x :: p', y :: s' => N.eqb x y && starts_with p' s'
  | _ :: _, [] => false
  end.

(** [p in s] for two strings *)
Fixpoint contains (p s : pystr) : bool :=
  starts_with p s ||
  match s with
  | [] => false
  | _ :: s' => contains p s'
  end.

(** Decimal digits of [n], left-padded with zeros to [width] ("%0<w>d"). *)
Definition zfill (width : nat) (n : N) : pystr :=
  let d := lit (NilEmpty.string_of_uint (N.to_uint n)) in
  repeat (chr "0") (width - List.length d) ++ d.

End Str.

Import Str.

(** ** datetime *)

Record datetime := {
  year : N; month : N; day : N;
  hour : N; minute : N; second : N; microsecond : N
}.

(** [datetime.isoformat()] of a naive datetime:
    YYYY-MM-DDTHH:MM:SS, followed by .ffffff when the microsecond is not 0. *)
Definition isoformat (d : datetime) : pystr :=
  zfill 4 (year d) ++ lit "-" ++ zfill 2 (month d) ++ lit "-" ++ zfill 2 (day d)
  ++ lit "T" ++ zfill 2 (hour d) ++ lit ":" ++ zfill 2 (minute d)
  ++ lit ":" ++ zfill 2 (second d)
  ++ (if N.eqb (microsecond d) 0 then [] else lit "." ++ zfill 6 (microsecond d)).

(** ** JSON values and [json.loads] *)

Module Json.

(** The Python object [json.loads] builds.  A number keeps its source text;
    an object keeps its pairs in source order ([dict] semantics are given by
    [dict_get], where the last pair of a key wins).  The decoder below follows
    the grammar of the [json] module (strict strings; NaN, Infinity and
    -Infinity accepted) and the two limits of the interpreter it runs in:
    the digit limit on integer literals and the recursion limit on nested
    arrays and objects. *)
Inductive value :=
| JNull
| JBool (b : bool)
| JNum (raw : pystr)
| JStr (s : pystr)
| JArr (items : list value)
| JObj (pairs : list (pystr * value)).

(** [key in d] and [d[key]] for the dict built from [pairs]. *)
Fixpoint dict_get (key : pystr) (pairs : list (pystr * value)) : option value :=
  match pairs with
  | [] => None
  | (k, v) :: rest =>
      match dict_get key rest with
      | Some v' => Some v'
      | None => if Str.eqb k key then Some v else None
      end
  end.

(** JSON whitespace: space, tab, line feed, carriage return. *)
Definition is_ws (c : N) : bool :=
  ((c =? 32) || (c =? 9) || (c =? 10) || (c =? 13))%N.

Fixpoint skip_ws (s : pystr) : pystr :=
  match s with
  | c :: s' => if is_ws c then skip_ws s' else s
  | [] => []
  end.

Definition is_digit (c : N) : bool := ((48 <=? c) && (c <=? 57))%N.

Definition hex_val (c : N) : option N :=
  (if (48 <=? c) && (c <=? 57) then Some (c - 48)
   else if (97 <=? c) && (c <=? 102) then Some (c - 87)
   else if (65 <=? c) && (c <=? 70) then Some (c - 55)
   else None)%N.

(** Four hexadecimal digits. *)
Definition hex4 (s : pystr) : option (N * pystr) :=
  match s with
  | a :: b :: c :: d :: rest =>
      match hex_val a, hex_val b, hex_val c, hex_val d with
      | Some x, Some y, Some z, Some w =>
          Some ((((x * 16 + y) * 16 + z) * 16 + w)%N, rest)
      | _, _, _, _ => None
      end
  | _ => None
  end.

(** The body of a string after its opening quote (strict mode: a raw
    control character is an error); a high surrogate escape directly
    followed by a low surrogate escape is one code point. *)
Fixpoint scanstring (fuel : nat) (s : pystr) (acc : pystr)
  : option (pystr * pystr) :=
  match fuel with
  | O => None
  | S fuel' =>
      match s with
      | [] => None
      | c :: rest =>
          if (c =? 34)%N then Some (rev acc, rest)
          else if (c <? 32)%N then None
          else if (c =? 92)%N then
            match rest with
            | [] => None
            | e :: rest' =>
                if (e =? 34)%N then scanstring fuel' rest' (34%N :: acc)
                else if (e =? 92)%N then scanstring fuel' rest' (92%N :: acc)
                else if (e =? 47)%N then scanstring fuel' rest' (47%N :: acc)
                else if (e =? 98)%N then scanstring fuel' rest' (8%N :: acc)
                else if (e =? 102)%N then scanstring fuel' rest' (12%N :: acc)
                else if (e =? 110)%N then scanstring fuel' rest' (10%N :: acc)
                else if (e =? 114)%N then scanstring fuel' rest' (13%N :: acc)
                else if (e =? 116)%N then scanstring fuel' rest' (9%N :: acc)
                else if (e =? 117)%N then
                  match hex4 rest' with
                  | None => None
                  | Some (u, rest2) =>
                      if ((55296 <=? u) && (u <=? 56319))%N then
                        match rest2 with
                        | 92%N :: 117%N :: rest3 =>
                            match hex4 rest3 with
                            | Some (u2, rest4) =>
                                if ((56320 <=? u2) && (u2 <=? 57343))%N then
                                  scanstring fuel' rest4
                                    ((65536 + (u - 55296) * 1024 + (u2 - 56320))%N :: acc)
                                else scanstring fuel' rest2 (u :: acc)
                            | None => scanstring fuel' rest2 (u :: acc)
                            end
                        | _ => scanstring fuel' rest2 (u :: acc)
                        end
                      else scanstring fuel' rest2 (u :: acc)
                  end
                else None
            end
          else scanstring fuel' rest (c :: acc)
      end
  end.

Fixpoint span_digits (s : pystr) : pystr * pystr :=
  match s with
  | c :: s' =>
      if is_digit c then let (d, r) := span_digits s' in (c :: d, r)
      else ([], s)
  | [] => ([], [])
  end.

(** The number at the head of [s], longest match: an optional minus sign;
    an integer part that is 0 or a digit from 1 to 9 followed by digits; an
    optional fraction (a dot and at least one digit); an optional exponent
    (e or E, an optional sign, at least one digit). *)
Definition scan_number (s : pystr) : option (pystr * pystr) :=
  let (sign, s1) :=
    match s with
    | 45%N :: r => ([45%N], r)
    | _ => ([], s)
    end in
  let int_part :=
    match s1 with
    | 48%N :: r => Some ([48%N], r)
    | c :: _ => if is_digit c then Some (span_digits s1) else None
    | [] => None
    end in
  match int_part with
  | None => None
  | Some (ip, s2) =>
      let (frac, s3) :=
        match s2 with
        | 46%N :: r =>
            match span_digits r with
            | ([], _) => ([], s2)
            | (d, r') => (46%N :: d, r')
            end
        | _ => ([], s2)
        end in
      let (ex, s4) :=
        match s3 with
        | e :: r =>
            if ((e =? 101) || (e =? 69))%N then
              let (sg, r1) :=
                match r with
                | g :: r' => if ((g =? 45) || (g =? 43))%N then ([g], r') else ([], r)
                | [] => ([], r)
                end in
              match span_digits r1 with
              | ([], _) => ([], s3)
              | (d, r2) => (e :: sg ++ d, r2)
              end
            else ([], s3)
        | [] => ([], s3)
        end in
      Some (sign ++ ip ++ frac ++ ex, s4)
  end.

(** The limits of the interpreter at a call of [json.loads]:
    [sys.get_int_max_str_digits()] (4300 by default, 0 for no limit), and the
    number of arrays and objects that can be open at once before the
    recursion limit is hit. *)
Record limits := { max_digits : N; max_depth : nat }.

(** How [json.loads] fails: [json.JSONDecodeError] on a text that is not
    JSON, [ValueError] on an integer literal with too many digits,
    [RecursionError] on too deep a nesting. *)
Inductive error := Malformed | IntTooLong | TooDeep.

(** A number text without fraction and exponent: [int] converts it. *)
Definition is_integer (raw : pystr) : bool :=
  forallb (fun c => is_digit c || (c =? 45)%N) raw.

Definition digit_count (raw : pystr) : N :=
  N.of_nat (List.length (filter is_digit raw)).

(** [int(raw)] raises [ValueError]: more digits than the limit allows. *)
Definition too_long (max : N) (raw : pystr) : bool :=
  (is_integer raw && (0 <? max) && (max <? digit_count raw))%N.

Definition keyword (k : string) (v : value) (s : pystr) : error + (value * pystr) :=
  if starts_with (lit k) s then inr (v, skipn (String.length k) s) else inl Malformed.

(** [scan_once]: one value at the head of [s].  [depth] is the number of
    arrays and objects that may still be opened; [max] is the digit limit. *)
Fixpoint scan_once (max : N) (fuel depth : nat) (s : pystr)
  : error + (value * pystr) :=
  match fuel with
  | O => inl Malformed
  | S fuel' =>
      let fix members (d n : nat) (s : pystr) (acc : list (pystr * value))
        : error + (value * pystr) :=
        (* [s] starts just after the opening quote of a key *)
        match n with
        | O => inl Malformed
        | S n' =>
            match scanstring (S (List.length s)) s [] with
            | None => inl Malformed
            | Some (key, s1) =>
                match skip_ws s1 with
                | 58%N :: s2 =>
                    match scan_once max fuel' d (skip_ws s2) with
                    | inl e => inl e
                    | inr (v, s3) =>
                        match skip_ws s3 with
                        | 125%N :: s4 => inr (JObj (rev ((key, v) :: acc)), s4)
                        | 44%N :: s4 =>
                            match skip_ws s4 with
                            | 34%N :: s5 => members d n' s5 ((key, v) :: acc)
                            | _ => inl Malformed
                            end
                        | _ => inl Malformed
                        end
                    end
                | _ => inl Malformed
                end
            end
        end in
      let fix elements (d n : nat) (s : pystr) (acc : list value)
        : error + (value * pystr) :=
        (* [s] starts at the first character of an element *)
        match n with
        | O => inl Malformed
        | S n' =>
            match scan_once max fuel' d s with
            | inl e => inl e
            | inr (v, s1) =>
                match skip_ws s1 with
                | 93%N :: s2 => inr (JArr (rev (v :: acc)), s2)
                | 44%N :: s2 => elements d n' (skip_ws s2) (v :: acc)
                | _ => inl Malformed
                end
            end
        end in
      match s with
      | [] => inl Malformed
      | c :: rest =>
          if (c =? 34)%N then
            match scanstring (S (List.length rest)) rest [] with
            | Some (str, r) => inr (JStr str, r)
            | None => inl Malformed
            end
          else if (c =? 123)%N then
            match depth with
            | O => inl TooDeep
            | S d =>
                match skip_ws rest with
                | 125%N :: r => inr (JObj [], r)
                | 34%N :: r => members d (S (List.length r)) r []
                | _ => inl Malformed
                end
            end
          else if (c =? 91)%N then
            match depth with
            | O => inl TooDeep
            | S d =>
                match skip_ws rest with
                | 93%N :: r => inr (JArr [], r)
                | r => elements d (S (List.length r)) r []
                end
            end
          else if (c =? 110)%N && starts_with (lit "null") s then keyword "null" JNull s
          else if (c =? 116)%N && starts_with (lit "true") s then keyword "true" (JBool true) s
          else if (c =? 102)%N && starts_with (lit "false") s then keyword "false" (JBool false) s
          else
            match scan_number s with
            | Some (raw, r) =>
                if too_long max raw then inl IntTooLong else inr (JNum raw, r)
            | None =>
                if (c =? 78)%N && starts_with (lit "NaN") s
                then keyword "NaN" (JNum (lit "NaN")) s
                else if (c =? 73)%N && starts_with (lit "Infinity") s
                then keyword "Infinity" (JNum (lit "Infinity")) s
                else if (c =? 45)%N && starts_with (lit "-Infinity") s
                then keyword "-Infinity" (JNum (lit "-Infinity")) s
                else inl Malformed
            end
      end
  end.

(** [json.loads(s)] for a [str], in an interpreter with the limits [lim].
    A leading byte-order mark, no value, or data after the value is
    [Malformed]. *)
Definition loads (lim : limits) (s : pystr) : error + value :=
  match s with
  | 65279%N :: _ => inl Malformed
  | _ =>
      match scan_once (max_digits lim) (S (List.length s)) (max_depth lim) (skip_ws s) with
      | inr (v, rest) =>
          match skip_ws rest with
          | [] => inr v
          | _ :: _ => inl Malformed
          end
      | inl e => inl e
      end
  end.

(** The limits of an interpreter started with its defaults, some 50 frames
    deep in a recursion limit of 1000. *)
Definition default_limits : limits := {| max_digits := 4300; max_depth := 950 |}.

End Json.

(** ** Messages, errors *)

(** [class Message(BaseModel)]: five [str] fields. *)
Record Message := {
  sender_id : pystr;
  receiver_id : pystr;
  content : pystr;
  message_type : pystr;
  timestamp : pystr
}.

(** An argument as a caller may pass it, before pydantic has validated it:
    a [str], or [None], which pydantic rejects for a [str] field.  (Values of
    other types, some of which pydantic converts, are outside the annotated
    type of the arguments and are not represented.) *)
Inductive pyval :=
| PStr (s : pystr)
| PNone.

(** [f"{v}"] *)
Definition format_val (v : pyval) : pystr :=
  match v with
  | PStr s => s
  | PNone => lit "None"
  end.

(** The exceptions that occur.  The first four are the classes the module
    declares ([AgentError] and its three subclasses); the others belong to the
    Python runtime and to the libraries the module calls. *)
Inductive exn :=
| AgentError (msg : pystr)
| CommunicationError (msg : pystr)
| OllamaError (msg : pystr)
| QueueFullError (msg : pystr)
| NotImplementedError
| ValidationError (fields : list pystr)   (* pydantic: the rejected fields *)
| JSONDecodeError                         (* json *)
| TypeError
| Full                                    (* queue.Full *)
| HTTPError (kind : pystr)                (* httpx: timeout, connection, ... *)
| ValueError                              (* int: too many digits *)
| RecursionError
| UnicodeEncodeError.                     (* print: a character stdout cannot encode *)

(** [isinstance(e, AgentError)] *)
Definition is_AgentError (e : exn) : bool :=
  match e with
  | AgentError _ | CommunicationError _ | OllamaError _ | QueueFullError _ => true
  | _ => false
  end.

(** [str(e)].  For the module's own classes this is the message given to the
    constructor; the wording of foreign exceptions is their library's and is
    only summarised here. *)
Definition exn_str (e : exn) : pystr :=
  match e with
  | AgentError m | CommunicationError m | OllamaError m | QueueFullError m => m
  | NotImplementedError => []
  | ValidationError fields =>
      lit "validation error for Message: " ++ concat (map (fun f => f ++ lit " ") fields)
  | JSONDecodeError => lit "Expecting value"
  | TypeError => lit "unsupported operand"
  | Full => []
  | HTTPError kind => kind
  | ValueError => lit "Exceeds the limit for integer string conversion"
  | RecursionError => lit "maximum recursion depth exceeded"
  | UnicodeEncodeError => lit "codec can't encode character"
  end.

(** The exception a failure of [json.loads] raises. *)
Definition exn_of_json (e : Json.error) : exn :=
  match e with
  | Json.Malformed => JSONDecodeError
  | Json.IntTooLong => ValueError
  | Json.TooDeep => RecursionError
  end.

(** ** Standard output *)

(** Whether a character is a surrogate code point. *)
Definition is_surrogate (c : N) : bool := ((55296 <=? c) && negb (57343 <? c))%N.

(** UTF-8 with strict error handling, the usual encoding of standard
    output: every code point except the surrogates. *)
Definition utf8 (c : N) : bool := negb (is_surrogate c) && negb (1114111 <? c)%N.

(** Whether a stream whose encoding has the non-ASCII characters [enc] can
    encode [line]; ASCII characters are in every encoding of a stream. *)
Definition printable (enc : N -> bool) (line : pystr) : bool :=
  forallb (fun c => negb (128 <=? c)%N || enc c) line.

(** ** queue.Queue *)

Module Queue.

(** [queue.Queue(maxsize)]: the items, oldest first, and the bound
    (a bound of 0 or less means no bound). *)
Record t := { maxsize : Z; items : list Message }.

Definition new (maxsize : Z) : t := {| maxsize := maxsize; items := [] |}.

Definition qsize (q : t) : nat := List.length (items q).

Definition empty (q : t) : bool :=
  match items q with
  | [] => true
  | _ :: _ => false
  end.

(** [0 < self.maxsize <= self._qsize()] *)
Definition full (q : t) : bool :=
  ((0 <? maxsize q) && (maxsize q <=? Z.of_nat (qsize q)))%Z.

(** [put_nowait]: [None] stands for raising [queue.Full]. *)
Definition put_nowait (q : t) (m : Message) : option t :=
  if full q then None
  else Some {| maxsize := maxsize q; items := items q ++ [m] |}.

(** [get()]: [None] stands for blocking on an empty queue. *)
Definition get (q : t) : option (Message * t) :=
  match items q with
  | [] => None
  | m :: rest => Some (m, {| maxsize := maxsize q; items := rest |})
  end.

End Queue.

(** ** Agents and the world they run in *)

Inductive AgentClass := BaseAgent | QuestionAgent | AnswerAgent.

Record Agent := {
  cls : AgentClass;
  agent_id : pystr;
  model : pystr;
  message_queue : Queue.t;
  base_url : pystr;
  timeout : N          (* seconds *)
}.

(** [__init__(self, agent_id, model="mistral", max_queue_size=100)] *)
Definition Agent_init (c : AgentClass) (agent_id : pystr)
    (model : option pystr) (max_queue_size : option Z) : Agent :=
  {| cls := c;
     agent_id := agent_id;
     model := match model with Some m => m | None => lit "mistral" end;
     message_queue :=
       Queue.new (match max_queue_size with Some n => n | None => 100%Z end);
     base_url := lit "http://localhost:11434";
     timeout := 30 |}.

(** What [process_messages] did, in order: the call of the handler on a
    message, and the handler's return with its value.  This history is
    observation only; no code reads it. *)
Inductive Event :=
| Dispatched (m : Message)
| Returned (m : Message) (result : option Message).

Record World := {
  self : Agent;
  stdout : list pystr;       (* lines printed so far *)
  encoder : N -> bool;       (* the characters the encoding of stdout has *)
  history : list Event;
  ticks : nat;               (* readings of the clock so far *)
  posts : nat                (* requests sent so far *)
}.

Definition boot (enc : N -> bool) (a : Agent) : World :=
  {| self := a; stdout := []; encoder := enc; history := []; ticks := 0; posts := 0 |}.

Definition queue_of (w : World) : list Message := Queue.items (message_queue (self w)).

(** The messages on which the handler was called, in order. *)
Fixpoint dispatches (h : list Event) : list Message :=
  match h with
  | [] => []
  | Dispatched m :: h' => m :: dispatches h'
  | Returned _ _ :: h' => dispatches h'
  end.

(** ** The monad: state, exceptions, and blocking *)

Inductive Outcome (A : Type) :=
| Ret (a : A)
| Raise (e : exn)
| Block.                     (* never returns: blocked, or the loop ran out of fuel *)

Arguments Ret {A} a.
Arguments Raise {A} e.
Arguments Block {A}.

Definition M (A : Type) := World -> Outcome A * World.

Definition ret {A} (a : A) : M A := fun w => (Ret a, w).

Definition raise {A} (e : exn) : M A := fun w => (Raise e, w).

Definition bind {A B} (c : M A) (k : A -> M B) : M B :=
  fun w =>
    match c w with
    | (Ret a, w') => k a w'
    | (Raise e, w') => (Raise e, w')
    | (Block, w') => (Block, w')
    end.

(** [try: c  except Exception as e: h e] *)
Definition catch {A} (c : M A) (h : exn -> M A) : M A :=
  fun w =>
    match c w with
    | (Raise e, w') => h e w'
    | r => r
    end.

Notation "x <- c ;; k" := (bind c (fun x => k))
  (at level 61, c at next level, right associativity).
Notation "c ;; k" := (bind c (fun _ => k))
  (at level 61, right associativity).

Definition get_self : M Agent := fun w => (Ret (self w), w).

(** [print(line)]: the line is encoded when it is written, and a character
    the encoding of stdout lacks raises [UnicodeEncodeError] with nothing
    written. *)
Definition print (line : pystr) : M unit :=
  fun w =>
    if printable (encoder w) line then
      (Ret tt, {| self := self w; stdout := stdout w ++ [line]; encoder := encoder w;
                  history := history w; ticks := ticks w; posts := posts w |})
    else (Raise UnicodeEncodeError, w).

Definition record (e : Event) : M unit :=
  fun w => (Ret tt, {| self := self w; stdout := stdout w; encoder := encoder w;
                       history := history w ++ [e]; ticks := ticks w; posts := posts w |}).

Definition set_queue (q : Queue.t) : M unit :=
  fun w => (Ret tt,
            {| self := {| cls := cls (self w); agent_id := agent_id (self w);
                          model := model (self w); message_queue := q;
                          base_url := base_url (self w); timeout := timeout (self w) |};
               stdout := stdout w; encoder := encoder w; history := history w;
               ticks := ticks w; posts := posts w |}).

(** [self.message_queue.put_nowait(m)] *)
Definition queue_put_nowait (m : Message) : M unit :=
  a <- get_self ;;
  match Queue.put_nowait (message_queue a) m with
  | Some q => set_queue q
  | None => raise Full
  end.

(** [self.message_queue.get()] *)
Definition queue_get : M Message :=
  a <- get_self ;;
  match Queue.get (message_queue a) with
  | Some (m, q) => set_queue q ;; ret m
  | None => fun w => (Block, w)
  end.

(** ** The environment: wall clock and generation backend *)

Record Request := {
  url : pystr;
  req_model : pystr;         (* json["model"] *)
  req_prompt : pystr;        (* json["prompt"] *)
  req_timeout : N
}.

Record Response := { status_code : Z; text : pystr }.

(** The n-th reading of the clock; the backend's reaction to the n-th
    request: an httpx exception (by kind) or a response; and the limits of
    the interpreter where the response to the n-th request is decoded. *)
Record Env := {
  clock : nat -> datetime;
  http_post : nat -> Request -> pystr + Response;
  json_limits : nat -> Json.limits
}.

(** ** Assembling the streamed response *)

(** ['response' in data] for the object [json.loads] returned: a key test on
    a dict, an element test on a list, a substring test on a string, and a
    [TypeError] on a number, a boolean or [None]. *)
Definition py_in_response (data : Json.value) : exn + bool :=
  match data with
  | Json.JObj pairs =>
      inr (match Json.dict_get (lit "response") pairs with Some _ => true | None => false end)
  | Json.JArr items =>
      inr (existsb (fun v => match v with
                             | Json.JStr s => Str.eqb s (lit "response")
                             | _ => false
                             end) items)
  | Json.JStr s => inr (Str.contains (lit "response") s)
  | Json.JNull | Json.JBool _ | Json.JNum _ => inl TypeError
  end.

(** [data['response']], reached only when ['response' in data] holds: the
    value of the key in a dict; a [TypeError] on a list or a string, whose
    indices are integers. *)
Definition py_get_response (data : Json.value) : exn + Json.value :=
  match data with
  | Json.JObj pairs =>
      match Json.dict_get (lit "response") pairs with
      | Some v => inr v
      | None => inl TypeError
      end
  | _ => inl TypeError
  end.

(** [acc += v] for a [str] accumulator: a [TypeError] unless [v] is a [str]. *)
Definition py_iadd_str (acc : pystr) (v : Json.value) : exn + pystr :=
  match v with
  | Json.JStr s => inr (acc ++ s)
  | _ => inl TypeError
  end.

(** The loop over the lines of the response, as written in both
    [generate_question] and [generate_answer]:
      for line in lines:
          if line:
              data = json.loads(line)
              if 'response' in data:
                  acc += data['response'] *)
Fixpoint stream_loop (lim : Json.limits) (lines : list pystr) (acc : pystr)
  : exn + pystr :=
  match lines with
  | [] => inr acc
  | [] :: rest => stream_loop lim rest acc
  | line :: rest =>
      match Json.loads lim line with
      | inl e => inl (exn_of_json e)
      | inr data =>
          match py_in_response data with
          | inl e => inl e
          | inr false => stream_loop lim rest acc
          | inr true =>
              match py_get_response data with
              | inl e => inl e
              | inr v =>
                  match py_iadd_str acc v with
                  | inl e => inl e
                  | inr acc' => stream_loop lim rest acc'
                  end
              end
          end
      end
  end.

(** [response.text.strip().split('\n')] *)
Definition response_lines (body : pystr) : list pystr := Str.split 10 (Str.strip body).

Definition lift {A} (r : exn + A) : M A :=
  match r with
  | inl e => raise e
  | inr a => ret a
  end.

(** The field [name] when pydantic rejects the value given for it. *)
Definition rejected (name : string) (v : pyval) : list pystr :=
  match v with
  | PStr _ => []
  | PNone => [lit name]
  end.

Section Agents.

Variable env : Env.

(** [datetime.now()] *)
Definition now : M datetime :=
  fun w => (Ret (clock env (ticks w)),
            {| self := self w; stdout := stdout w; encoder := encoder w;
               history := history w; ticks := S (ticks w); posts := posts w |}).

(** The number of requests sent so far: the number of the next one. *)
Definition sent : M nat := fun w => (Ret (posts w), w).

(** [await client.post(url, json={"model": .., "prompt": ..})] *)
Definition post (r : Request) : M Response :=
  fun w =>
    let w' := {| self := self w; stdout := stdout w; encoder := encoder w;
                 history := history w; ticks := ticks w; posts := S (posts w) |} in
    match http_post env (posts w) r with
    | inl kind => (Raise (HTTPError kind), w')
    | inr resp => (Ret resp, w')
    end.

(** [Message(sender_id=.., receiver_id=.., content=.., message_type=..)].
    pydantic checks that each given field is a [str] and reports the ones
    that are not; [message_type] defaults to "general" and [timestamp] to
    [datetime.now().isoformat()]. *)
Definition Message_new (sender receiver body : pyval) (mtype : option pyval)
  : M Message :=
  stamp <- now ;;
  match sender, receiver, body,
        match mtype with Some t => t | None => PStr (lit "general") end with
  | PStr s, PStr r, PStr c, PStr t =>
      ret {| sender_id := s; receiver_id := r; content := c;
             message_type := t; timestamp := isoformat stamp |}
  | s, r, c, t =>
      raise (ValidationError (rejected "sender_id" s ++ rejected "receiver_id" r
                              ++ rejected "content" c ++ rejected "message_type" t))
  end.

(** [BaseAgent.send_message(to_agent_id, content, message_type="general")] *)
Definition send_message (to_agent_id body : pyval) (mtype : option pyval)
  : M Message :=
  catch
    (a <- get_self ;;
     message <- Message_new (PStr (agent_id a)) to_agent_id body
                  (Some match mtype with Some t => t | None => PStr (lit "general") end) ;;
     print (lit "Agent " ++ agent_id a ++ lit " sending message to "
            ++ format_val to_agent_id ++ lit ": " ++ format_val body) ;;
     ret message)
    (fun e => raise (CommunicationError (lit "Failed to send message: " ++ exn_str e))).

(** [BaseAgent.receive_message(message)] *)
Definition receive_message (message : Message) : M unit :=
  a <- get_self ;;
  if negb (Str.eqb (receiver_id message) (agent_id a)) then
    raise (CommunicationError (lit "Message intended for " ++ receiver_id message
                               ++ lit ", not " ++ agent_id a))
  else if Queue.full (message_queue a) then
    raise (QueueFullError (lit "Message queue full for agent " ++ agent_id a))
  else
    queue_put_nowait message ;;
    print (lit "Agent " ++ agent_id a ++ lit " received message: " ++ content message).

(** [QuestionAgent.generate_question(topic)] *)
Definition generate_question (topic : pystr) : M pystr :=
  a <- get_self ;;
  n <- sent ;;
  let prompt := lit "Generate a thought-provoking question about: " ++ topic in
  response <- post {| url := base_url a ++ lit "/api/generate";
                      req_model := model a; req_prompt := prompt;
                      req_timeout := timeout a |} ;;
  question <- lift (stream_loop (json_limits env n)
                      (response_lines (text response)) []) ;;
  ret (Str.strip question).

(** [AnswerAgent.generate_answer(question)] *)
Definition generate_answer (question : pystr) : M pystr :=
  a <- get_self ;;
  n <- sent ;;
  response <- post {| url := base_url a ++ lit "/api/generate";
                      req_model := model a;
                      req_prompt := lit "Please answer this question: " ++ question;
                      req_timeout := timeout a |} ;;
  answer <- lift (stream_loop (json_limits env n)
                    (response_lines (text response)) []) ;;
  ret (Str.strip answer).

(** [BaseAgent._handle_message]: to be implemented by specific agents. *)
Definition BaseAgent_handle_message (message : Message) : M (option Message) :=
  raise NotImplementedError.

(** [QuestionAgent._handle_message]: prints the answer received. *)
Definition QuestionAgent_handle_message (message : Message) : M (option Message) :=
  print (lit "Question Agent received answer: " ++ content message) ;;
  ret None.

(** [AnswerAgent._handle_message]: answers a "question" and returns the
    reply; returns [None] for any other type. *)
Definition AnswerAgent_handle_message (message : Message) : M (option Message) :=
  if Str.eqb (message_type message) (lit "question") then
    answer <- generate_answer (content message) ;;
    response_message <- send_message (PStr (sender_id message)) (PStr answer)
                          (Some (PStr (lit "answer"))) ;;
    ret (Some response_message)
  else ret None.

(** [self._handle_message(message)]: the method of the class of [self]. *)
Definition _handle_message (message : Message) : M (option Message) :=
  a <- get_self ;;
  match cls a with
  | BaseAgent => BaseAgent_handle_message message
  | QuestionAgent => QuestionAgent_handle_message message
  | AnswerAgent => AnswerAgent_handle_message message
  end.

(** [BaseAgent.process_messages()], for the handler [handle] that
    [self._handle_message] resolves to.  The handler's return value is
    dropped and the method returns [None].  [fuel] bounds the number of
    iterations; running out of it is [Block]. *)
Fixpoint process_messages_with (handle : Message -> M (option Message))
    (fuel : nat) : M unit :=
  match fuel with
  | O => fun w => (Block, w)
  | S fuel' =>
      a <- get_self ;;
      if Queue.empty (message_queue a) then ret tt
      else
        message <- queue_get ;;
        record (Dispatched message) ;;
        result <- handle message ;;
        record (Returned message result) ;;
        process_messages_with handle fuel'
  end.

Definition process_messages (fuel : nat) : M unit :=
  process_messages_with _handle_message fuel.

End Agents.

(** ** Callers and observations used in the statements *)

(** A caller that offers each message of [ms] in turn to [receive_message]
    and goes on after an exception (as [test_error_handling] does with
    [QueueFullError]); it counts the messages accepted. *)
Fixpoint deliver (ms : list Message) (w : World) : nat * World :=
  match ms with
  | [] => (0, w)
  | m :: ms' =>
      match receive_message m w with
      | (Ret _, w') => let (n, w'') := deliver ms' w' in (S n, w'')
      | (_, w') => deliver ms' w'
      end
  end.

(** The world after [m] was put into the mailbox. *)
Definition enqueued (m : Message) (w : World) : World :=
  {| self := {| cls := cls (self w); agent_id := agent_id (self w);
                model := model (self w);
                message_queue :=
                  {| Queue.maxsize := Queue.maxsize (message_queue (self w));
                     Queue.items := queue_of w ++ [m] |};
                base_url := base_url (self w); timeout := timeout (self w) |};
     stdout := stdout w ++ [lit "Agent " ++ agent_id (self w)
                            ++ lit " received message: " ++ content m];
     encoder := encoder w;
     history := history w; ticks := ticks w; posts := posts w |}.

(** The line [receive_message] prints for [m]. *)
Definition received_line (m : Message) (w : World) : pystr :=
  lit "Agent " ++ agent_id (self w) ++ lit " received message: " ++ content m.

(** The world after [m] was put into the mailbox and the print that follows
    failed: nothing is printed. *)
Definition queued (m : Message) (w : World) : World :=
  {| self := {| cls := cls (self w); agent_id := agent_id (self w);
                model := model (self w);
                message_queue :=
                  {| Queue.maxsize := Queue.maxsize (message_queue (self w));
                     Queue.items := queue_of w ++ [m] |};
                base_url := base_url (self w); timeout := timeout (self w) |};
     stdout := stdout w;
     encoder := encoder w;
     history := history w; ticks := ticks w; posts := posts w |}.

(** The public operations of an agent. *)
Inductive Op :=
| OpSend (to_agent_id body : pyval) (mtype : option pyval)
| OpReceive (m : Message)
| OpProcess (fuel : nat)
| OpGenerateQuestion (topic : pystr)
| OpGenerateAnswer (question : pystr).

(** The world after one operation, whatever its outcome. *)
Definition run_op (env : Env) (o : Op) (w : World) : World :=
  match o with
  | OpSend t b mt => snd (send_message env t b mt w)
  | OpReceive m => snd (receive_message m w)
  | OpProcess fuel => snd (process_messages env fuel w)
  | OpGenerateQuestion t => snd (generate_question env t w)
  | OpGenerateAnswer q => snd (generate_answer env q w)
  end.

(** The worlds an agent can be in: just constructed, or after any operation. *)
Inductive reachable (env : Env) : World -> Prop :=
| reach_init enc c id mdl size : reachable env (boot enc (Agent_init c id mdl size))
| reach_step o w : reachable env w -> reachable env (run_op env o w).

(** Every message in the mailbox is addressed to its owner. *)
Definition mailbox_addressed (w : World) : Prop :=
  Forall (fun m => receiver_id m = agent_id (self w)) (queue_of w).

(** A history in which every handler call is followed at once by its return,
    except possibly the last call. *)
Inductive Serial : list Event -> Prop :=
| Serial_nil : Serial []
| Serial_open m : Serial [Dispatched m]
| Serial_cons m r h : Serial h -> Serial (Dispatched m :: Returned m r :: h).

(** A handler that leaves the agent (its mailbox included) and the history
    alone, and that always comes back. *)
Definition handler_frame (handle : Message -> M (option Message)) : Prop :=
  forall m w, self (snd (handle m w)) = self w
              /\ history (snd (handle m w)) = history w
              /\ fst (handle m w) <> Block.

(** A computation that leaves the agent and the history alone and that
    always comes back (it may print, read the clock, call the backend). *)
Definition inert {A} (c : M A) : Prop :=
  forall w, self (snd (c w)) = self w
            /\ history (snd (c w)) = history w
            /\ fst (c w) <> Block.

(** A computation that leaves the encoding of standard output alone. *)
Definition steady {A} (c : M A) : Prop :=
  forall w, encoder (snd (c w)) = encoder w.

(** The world in which the handler is called on the head [m] of the queue:
    [m] is dequeued and the call is recorded. *)
Definition at_dispatch (m : Message) (w : World) : World :=
  snd ((queue_get ;; record (Dispatched m)) w).

(** The world after the handler was called in turn on each message of [ms],
    taken from the head of the mailbox as [process_messages] does, and
    returned each time; [None] when one of these calls does not return. *)
Fixpoint handled (handle : Message -> M (option Message)) (ms : list Message)
    (w : World) : option World :=
  match ms with
  | [] => Some w
  | m :: ms' =>
      match handle m (at_dispatch m w) with
      | (Ret r, w1) => handled handle ms' (snd (record (Returned m r) w1))
      | _ => None
      end
  end.

(** Following the specification: the fragment a line carries under the
    'response' field, if it is a record that carries one. *)
Definition spec_fragment (lim : Json.limits) (line : pystr) : option pystr :=
  match Json.loads lim line with
  | inr (Json.JObj pairs) =>
      match Json.dict_get (lit "response") pairs with
      | Some (Json.JStr s) => Some s
      | _ => None
      end
  | _ => None
  end.

(** Following the specification: the in-order concatenation of the fragments
    of the lines that carry one, trimmed. *)
Definition spec_assemble (lim : Json.limits) (body : pystr) : pystr :=
  Str.strip (concat (map (fun line => match spec_fragment lim line with
                                      | Some s => s
                                      | None => []
                                      end) (response_lines body))).

(** A line the specification expects: empty, or a line that [json.loads]
    decodes to a record whose 'response' field, when present, is text. *)
Definition record_line (lim : Json.limits) (line : pystr) : Prop :=
  line = [] \/
  exists pairs, Json.loads lim line = inr (Json.JObj pairs)
                /\ (Json.dict_get (lit "response") pairs = None
                    \/ exists s, Json.dict_get (lit "response") pairs = Some (Json.JStr s)).

(** The exceptions of the JSON decoder and of the Python runtime that the
    loop over the lines can fail with. *)
Definition foreign (e : exn) : Prop :=
  e = JSONDecodeError \/ e = TypeError \/ e = ValueError \/ e = RecursionError.

(** The request [generate_question] sends. *)
Definition question_request (a : Agent) (topic : pystr) : Request :=
  {| url := base_url a ++ lit "/api/generate";
     req_model := model a;
     req_prompt := lit "Generate a thought-provoking question about: " ++ topic;
     req_timeout := timeout a |}.

(** The request [generate_answer] sends. *)
Definition answer_request (a : Agent) (question : pystr) : Request :=
  {| url := base_url a ++ lit "/api/generate";
     req_model := model a;
     req_prompt := lit "Please answer this question: " ++ question;
     req_timeout := timeout a |}.

(** The world after one request was sent. *)
Definition posted (w : World) : World :=
  {| self := self w; stdout := stdout w; encoder := encoder w; history := history w;
     ticks := ticks w; posts := S (posts w) |}.

(** ** Concrete agents and environments for the scenarios *)

Module Scenario.

Definition noon (n : nat) : datetime :=
  {| year := 2024; month := 3; day := 9; hour := 12; minute := 0;
     second := N.of_nat n; microsecond := 0 |}.

(** A backend that answers every request with [body]. *)
Definition serving (body : pystr) : Env :=
  {| clock := noon;
     http_post := fun _ _ => inr {| status_code := 200; text := body |};
     json_limits := fun _ => Json.default_limits |}.

Definition newline : pystr := [10%N].

(** Three lines: fragments "Hel" and "lo", and one line without the field. *)
Definition hello_body : pystr :=
  qlit "{'response':'Hel','done':false}" ++ newline
  ++ qlit "{'model':'mistral','done':false}" ++ newline
  ++ qlit "{'response':'lo','done':true}" ++ newline.

(** A body whose second line is not JSON. *)
Definition broken_body : pystr :=
  qlit "{'response':'Hel'}" ++ newline ++ lit "<html>502</html>" ++ newline.

Definition msg (from to body kind : string) : Message :=
  {| sender_id := lit from; receiver_id := lit to; content := lit body;
     message_type := lit kind; timestamp := lit "2024-03-09T11:59:59" |}.

Definition msg1 : Message := msg "sender" "test_agent" "msg1" "general".
Definition msg2 : Message := msg "sender" "test_agent" "msg2" "general".

(** [BaseAgent("test_agent", max_queue_size=1)] *)
Definition test_agent : World :=
  boot utf8 (Agent_init BaseAgent (lit "test_agent") None (Some 1%Z)).

(** [BaseAgent("agent1")] *)
Definition agent1 : World := boot utf8 (Agent_init BaseAgent (lit "agent1") None None).

Definition question : Message := msg "Q" "A" "topic" "question".

(** [AnswerAgent("A")] holding exactly one question from Q. *)
Definition answerer : World :=
  snd (receive_message question (boot utf8 (Agent_init AnswerAgent (lit "A") None None))).


(** [QuestionAgent("test_agent")] after it received [msg1] and [msg2]. *)
Definition questioner_two : World :=
  snd (deliver [msg1; msg2] (boot utf8 (Agent_init QuestionAgent (lit "test_agent") None None))).

(** [QuestionAgent("test_agent")] *)
Definition questioner : World :=
  boot utf8 (Agent_init QuestionAgent (lit "test_agent") None None).

End Scenario.

(** ** Further observations *)

(** The agent [a] with the items of its mailbox replaced by [q]. *)
Definition with_items (a : Agent) (q : list Message) : Agent :=
  {| cls := cls a; agent_id := agent_id a; model := model a;
     message_queue := {| Queue.maxsize := Queue.maxsize (message_queue a);
                         Queue.items := q |};
     base_url := base_url a; timeout := timeout a |}.

(** The mailbox respects its bound, when it has one. *)
Definition within_capacity (w : World) : Prop :=
  (0 < Queue.maxsize (message_queue (self w)))%Z ->
  (Z.of_nat (List.length (queue_of w)) <= Queue.maxsize (message_queue (self w)))%Z.

(** Neither the first nor the last character of [s] is whitespace. *)
Definition trimmed (s : pystr) : Prop :=
  match s with
  | [] => True
  | c :: _ => Str.is_space c = false /\ Str.is_space (last s c) = false
  end.

(** The line a [QuestionAgent] prints for a message. *)
Definition answer_line (m : Message) : pystr :=
  lit "Question Agent received answer: " ++ content m.

(** The world [v] after the lines [out] were printed. *)
Definition printed (out : list pystr) (v : World) : World :=
  {| self := self v; stdout := stdout v ++ out; encoder := encoder v;
     history := history v; ticks := ticks v; posts := posts v |}.

(** A decoded line in which the loop finds no 'response': a record without
    that key, a list without that element, a string without that substring. *)
Definition carries_nothing (data : Json.value) : Prop :=
  match data with
  | Json.JObj pairs => Json.dict_get (lit "response") pairs = None
  | Json.JArr items =>
      Forall (fun v => forall s, v = Json.JStr s -> s <> lit "response") items
  | Json.JStr s => Str.contains (lit "response") s = false
  | Json.JNull | Json.JBool _ | Json.JNum _ => False
  end.

(** A line the loop passes over: empty, or decoding to a value that carries
    nothing. *)
Definition passed_over (lim : Json.limits) (line : pystr) : Prop :=
  line = [] \/ exists data, Json.loads lim line = inr data /\ carries_nothing data.

(** A decoded line on which the loop raises [TypeError]: a number, a boolean
    or null; a string that contains "response"; a list that has the element
    "response"; a record whose 'response' is not a string. *)
Definition type_error_value (data : Json.value) : Prop :=
  match data with
  | Json.JNull | Json.JBool _ | Json.JNum _ => True
  | Json.JStr s => Str.contains (lit "response") s = true
  | Json.JArr items => Exists (fun v => v = Json.JStr (lit "response")) items
  | Json.JObj pairs =>
      exists v, Json.dict_get (lit "response") pairs = Some v
                /\ forall s, v <> Json.JStr s
  end.

(** Further bodies and backends for the edge cases. *)
Module Cases.

(** The body of an error reply of the backend. *)
Definition error_body : pystr := qlit "{'error':'model not found'}".

(** A backend that answers every request with status 404 and [error_body]. *)
Definition not_found : Env :=
  {| clock := Scenario.noon;
     http_post := fun _ _ => inr {| status_code := 404; text := error_body |};
     json_limits := fun _ => Json.default_limits |}.

(** A body of whitespace only: two spaces, a line feed, a tab, a line feed. *)
Definition blank_body : pystr := [32; 32; 10; 9; 10]%N.

(** Two records separated by a blank line, with CR LF line ends. *)
Definition crlf_body : pystr :=
  qlit "{'response':'Hel'}" ++ [13; 10; 13; 10]%N ++ qlit "{'response':'lo'}".

(** A record followed by a line that is the JSON value null. *)
Definition null_body : pystr :=
  qlit "{'response':'Hel'}" ++ [10%N] ++ lit "null".

(** A record whose 'response' is a number. *)
Definition number_body : pystr := qlit "{'response': 5}".

(** [AnswerAgent("A")] holding a question from "Q" and one from "R". *)
Definition two_questions : World :=
  snd (deliver [Scenario.msg "Q" "A" "topic" "question";
                Scenario.msg "R" "A" "other topic" "question"]
         (boot utf8 (Agent_init AnswerAgent (lit "A") None None))).

(** A backend whose every request times out. *)
Definition timing_out : Env :=
  {| clock := Scenario.noon; http_post := fun _ _ => inl (lit "ReadTimeout");
     json_limits := fun _ => Json.default_limits |}.

(** A note of type "general" for "A". *)
Definition note : Message := Scenario.msg "Q" "A" "fyi" "general".

(** [AnswerAgent("A")] holding a note and, behind it, a question. *)
Definition note_then_question : World :=
  snd (deliver [note; Scenario.question]
         (boot utf8 (Agent_init AnswerAgent (lit "A") None None))).

End Cases.

(** ** The test programs of the module *)

(** [str(n)] for a non-negative integer. *)
Definition str_of_nat (n : nat) : pystr :=
  lit (NilEmpty.string_of_uint (Nat.to_uint n)).

(** The state of a test program: its (at most) two agents, and what all
    agents of the process share: standard output, clock and backend. *)
Record Program := {
  agent_one : Agent;
  agent_two : Agent;
  console : list pystr;
  codec : N -> bool;         (* the characters the encoding of stdout has *)
  trace : list Event;
  clock_reads : nat;
  requests : nat
}.

Definition T (A : Type) := Program -> Outcome A * Program.

Definition tret {A} (a : A) : T A := fun p => (Ret a, p).

Definition tbind {A B} (c : T A) (k : A -> T B) : T B :=
  fun p =>
    match c p with
    | (Ret a, p') => k a p'
    | (Raise e, p') => (Raise e, p')
    | (Block, p') => (Block, p')
    end.

Notation "x <~ c ;; k" := (tbind c (fun x => k))
  (at level 61, c at next level, right associativity).
Notation "c ~;; k" := (tbind c (fun _ => k))
  (at level 61, right associativity).

(** A method call on the first agent. *)
Definition on_one {A} (c : M A) : T A :=
  fun p =>
    let (o, w) := c {| self := agent_one p; stdout := console p; encoder := codec p;
                       history := trace p;
                       ticks := clock_reads p; posts := requests p |} in
    (o, {| agent_one := self w; agent_two := agent_two p; console := stdout w;
           codec := encoder w;
           trace := history w; clock_reads := ticks w; requests := posts w |}).

(** A method call on the second agent. *)
Definition on_two {A} (c : M A) : T A :=
  fun p =>
    let (o, w) := c {| self := agent_two p; stdout := console p; encoder := codec p;
                       history := trace p;
                       ticks := clock_reads p; posts := requests p |} in
    (o, {| agent_one := agent_one p; agent_two := self w; console := stdout w;
           codec := encoder w;
           trace := history w; clock_reads := ticks w; requests := posts w |}).

(** The two agents a test creates. *)
Definition create (a b : Agent) : T unit :=
  fun p => (Ret tt, {| agent_one := a; agent_two := b; console := console p;
                       codec := codec p;
                       trace := trace p; clock_reads := clock_reads p;
                       requests := requests p |}).

(** The single agent a test creates. *)
Definition create_one (a : Agent) : T unit :=
  fun p => (Ret tt, {| agent_one := a; agent_two := agent_two p; console := console p;
                       codec := codec p;
                       trace := trace p; clock_reads := clock_reads p;
                       requests := requests p |}).

Definition tprint (line : pystr) : T unit :=
  fun p =>
    if printable (codec p) line then
      (Ret tt, {| agent_one := agent_one p; agent_two := agent_two p;
                  console := console p ++ [line]; codec := codec p; trace := trace p;
                  clock_reads := clock_reads p; requests := requests p |})
    else (Raise UnicodeEncodeError, p).

(** [try: c  except QueueFullError as e: h e] *)
Definition except_queue_full {A} (c : T A) (h : exn -> T A) : T A :=
  fun p =>
    match c p with
    | (Raise (QueueFullError msg), p') => h (QueueFullError msg) p'
    | r => r
    end.

(** A line that starts with a line feed, as in [print("\n...")]. *)
Definition nl_lit (s : string) : pystr := 10%N :: lit s.

Section Tests.

Variable env : Env.

(** [test_base_agent()] *)
Definition test_base_agent : T unit :=
  tprint (lit "Starting base agent test...") ~;;
  create (Agent_init BaseAgent (lit "agent1") None None)
         (Agent_init BaseAgent (lit "agent2") None None) ~;;
  tprint (nl_lit "Testing message passing:") ~;;
  message <~ on_one (send_message env (PStr (lit "agent2"))
                       (PStr (lit "Hello from agent1!")) None) ;;
  on_two (receive_message message) ~;;
  tprint (nl_lit "Message queue status:") ~;;
  fun p => tprint (lit "Agent2 queue size: "
                   ++ str_of_nat (Queue.qsize (message_queue (agent_two p)))) p.

(** [test_qa_agents()]; [fuel] bounds the loop of [process_messages]. *)
Definition test_qa_agents (fuel : nat) : T unit :=
  tprint (nl_lit "Starting Question-Answer Agent Test...") ~;;
  create (Agent_init QuestionAgent (lit "questioner") None None)
         (Agent_init AnswerAgent (lit "answerer") None None) ~;;
  tprint (nl_lit "Generating question about programming...") ~;;
  question <~ on_one (generate_question env (lit "python programming")) ;;
  question_message <~ on_one (send_message env (PStr (lit "answerer")) (PStr question)
                                (Some (PStr (lit "question")))) ;;
  on_two (receive_message question_message) ~;;
  on_two (process_messages env fuel).

(** [test_error_handling()] *)
Definition test_error_handling : T unit :=
  tprint (nl_lit "Testing Error Handling Scenarios...") ~;;
  tprint (nl_lit "1. Testing queue overflow:") ~;;
  create_one (Agent_init BaseAgent (lit "test_agent") None (Some 1%Z)) ~;;
  msg1 <~ on_one (Message_new env (PStr (lit "sender")) (PStr (lit "test_agent"))
                    (PStr (lit "msg1")) None) ;;
  on_one (receive_message msg1) ~;;
  tprint (lit "First message received successfully") ~;;
  except_queue_full
    (msg2 <~ on_one (Message_new env (PStr (lit "sender")) (PStr (lit "test_agent"))
                       (PStr (lit "msg2")) None) ;;
     on_one (receive_message msg2))
    (fun e => tprint (lit "Test passed: " ++ exn_str e)).

(** The line [print("\n" + "="*50 + "\n")] prints. *)
Definition separator : pystr := 10%N :: repeat (Str.chr "=") 50 ++ [10%N].

(** The module run as a script: the three tests in turn. *)
Definition main (fuel : nat) : T unit :=
  test_base_agent ~;;
  tprint separator ~;;
  test_qa_agents fuel ~;;
  tprint separator ~;;
  tprint (lit "Running Error Handling Tests...") ~;;
  test_error_handling.

End Tests.

(** The agents and messages of the test programs. *)
Module Script.

Definition agent1 : Agent := Agent_init BaseAgent (lit "agent1") None None.
Definition agent2 : Agent := Agent_init BaseAgent (lit "agent2") None None.
Definition questioner : Agent := Agent_init QuestionAgent (lit "questioner") None None.
Definition answerer : Agent := Agent_init AnswerAgent (lit "answerer") None None.
Definition test_agent : Agent := Agent_init BaseAgent (lit "test_agent") None (Some 1%Z).

(** The message [test_base_agent] sends, built at clock reading [stamp]. *)
Definition hello (stamp : datetime) : Message :=
  {| sender_id := lit "agent1"; receiver_id := lit "agent2";
     content := lit "Hello from agent1!"; message_type := lit "general";
     timestamp := isoformat stamp |}.

(** The question [test_qa_agents] sends. *)
Definition question (body : pystr) (stamp : datetime) : Message :=
  {| sender_id := lit "questioner"; receiver_id := lit "answerer";
     content := body; message_type := lit "question";
     timestamp := isoformat stamp |}.

(** The reply the answerer builds. *)
Definition reply (body : pystr) (stamp : datetime) : Message :=
  {| sender_id := lit "answerer"; receiver_id := lit "questioner";
     content := body; message_type := lit "answer";
     timestamp := isoformat stamp |}.

(** The messages [test_error_handling] builds. *)
Definition overflow_msg (body : string) (stamp : datetime) : Message :=
  {| sender_id := lit "sender"; receiver_id := lit "test_agent";
     content := lit body; message_type := lit "general";
     timestamp := isoformat stamp |}.

(** What [test_base_agent] prints. *)
Definition base_lines : list pystr :=
  [lit "Starting base agent test...";
   nl_lit "Testing message passing:";
   lit "Agent agent1 sending message to agent2: Hello from agent1!";
   lit "Agent agent2 received message: Hello from agent1!";
   nl_lit "Message queue status:";
   lit "Agent2 queue size: 1"].

(** What [test_qa_agents] prints before the first request. *)
Definition qa_opening : list pystr :=
  [nl_lit "Starting Question-Answer Agent Test...";
   nl_lit "Generating question about programming..."].

(** What [test_qa_agents] prints for the question and the answer generated. *)
Definition qa_lines (question answer : pystr) : list pystr :=
  qa_opening
  ++ [lit "Agent questioner sending message to answerer: " ++ question;
      lit "Agent answerer received message: " ++ question;
      lit "Agent answerer sending message to questioner: " ++ answer].

(** What [test_error_handling] prints. *)
Definition overflow_lines : list pystr :=
  [nl_lit "Testing Error Handling Scenarios...";
   nl_lit "1. Testing queue overflow:";
   lit "Agent test_agent received message: msg1";
   lit "First message received successfully";
   lit "Test passed: Message queue full for agent test_agent"].

End Script.

(** The line [send_message] prints when agent [a] sends [body] to [to]. *)
Definition sending (a : Agent) (to body : pystr) : pystr :=
  lit "Agent " ++ agent_id a ++ lit " sending message to " ++ to ++ lit ": " ++ body.

(** The backend answers with records the requests an [AnswerAgent] [a] makes
    for the questions [qs], the first of them being request number [n];
    [answers] are the texts assembled from the responses, in order; and
    standard output, with the encoding [enc], can print the line of each
    reply. *)
Fixpoint well_served (env : Env) (enc : N -> bool) (a : Agent) (n : nat)
    (qs : list Message) (answers : list pystr) : Prop :=
  match qs, answers with
  | [], [] => True
  | m :: qs', x :: answers' =>
      message_type m = lit "question"
      /\ (exists r, http_post env n (answer_request a (content m)) = inr r
                    /\ Forall (record_line (json_limits env n)) (response_lines (text r))
                    /\ x = spec_assemble (json_limits env n) (text r))
      /\ printable enc (sending a (sender_id m) x) = true
      /\ well_served env enc a (S n) qs' answers'
  | _, _ => False
  end.

(** The replies of agent [a] to the questions [qs] with the texts [answers],
    the first one built at clock reading number [t]. *)
Fixpoint replies (env : Env) (a : Agent) (t : nat) (qs : list Message)
    (answers : list pystr) : list Message :=
  match qs, answers with
  | m :: qs', x :: answers' =>
      {| sender_id := agent_id a; receiver_id := sender_id m; content := x;
         message_type := lit "answer"; timestamp := isoformat (clock env t) |}
      :: replies env a (S t) qs' answers'
  | _, _ => []
  end.

(** The line [send_message] prints for a message. *)
Definition sending_line (m : Message) : pystr :=
  lit "Agent " ++ sender_id m ++ lit " sending message to " ++ receiver_id m
  ++ lit ": " ++ content m.

(** The history of a run in which each message of [qs] was handled and the
    handler returned the corresponding message of [rs]. *)
Fixpoint answered (qs rs : list Message) : list Event :=
  match qs, rs with
  | m :: qs', r :: rs' => Dispatched m :: Returned m (Some r) :: answered qs' rs'
  | _, _ => []
  end.

(** * Properties *)

(** ** Strings *)

Lemma str_eqb_eq (a b : pystr) : Str.eqb a b = true <-> a = b.
Proof.
  revert b; induction a as [|x a IH]; intros [|y b]; simpl; split; intro H;
    try reflexivity; try discriminate.
  - apply andb_true_iff in H as [Hx Hab].
    apply N.eqb_eq in Hx. apply IH in Hab. congruence.
  - injection H as -> ->. apply andb_true_iff; split.
    + apply N.eqb_refl.
    + apply IH; reflexivity.
Qed.

Lemma str_eqb_refl (a : pystr) : Str.eqb a a = true.
Proof. apply str_eqb_eq; reflexivity. Qed.

Lemma str_eqb_neq (a b : pystr) : a <> b -> Str.eqb a b = false.
Proof.
  intro H. destruct (Str.eqb a b) eqn:E; [|reflexivity].
  apply str_eqb_eq in E. contradiction.
Qed.

Lemma isoformat_nonempty (d : datetime) : isoformat d <> [].
Proof.
  unfold isoformat. intro H.
  apply app_eq_nil in H as [_ H].
  discriminate H.
Qed.

(** ** Standard output *)

Lemma printable_app (enc : N -> bool) (a b : pystr) :
  printable enc (a ++ b) = printable enc a && printable enc b.
Proof. apply forallb_app. Qed.

Lemma print_ok (line : pystr) (w : World) :
  printable (encoder w) line = true ->
  print line w = (Ret tt, {| self := self w; stdout := stdout w ++ [line];
                             encoder := encoder w; history := history w;
                             ticks := ticks w; posts := posts w |}).
Proof. intro H. unfold print. rewrite H. reflexivity. Qed.

Lemma print_fails (line : pystr) (w : World) :
  printable (encoder w) line = false ->
  print line w = (Raise UnicodeEncodeError, w).
Proof. intro H. unfold print. rewrite H. reflexivity. Qed.

(** ** The mailbox: [receive_message] *)

Lemma receive_wrong_recipient (m : Message) (w : World) :
  receiver_id m <> agent_id (self w) ->
  receive_message m w =
    (Raise (CommunicationError (lit "Message intended for " ++ receiver_id m
                                ++ lit ", not " ++ agent_id (self w))), w).
Proof.
  intro H. unfold receive_message, bind, get_self.
  rewrite (str_eqb_neq H). reflexivity.
Qed.

Lemma receive_full (m : Message) (w : World) :
  receiver_id m = agent_id (self w) ->
  Queue.full (message_queue (self w)) = true ->
  receive_message m w =
    (Raise (QueueFullError (lit "Message queue full for agent " ++ agent_id (self w))), w).
Proof.
  intros Hid Hfull. unfold receive_message, bind, get_self.
  rewrite Hid, str_eqb_refl, Hfull. reflexivity.
Qed.

(** After the two tests, the message is put into the mailbox and the line
    is printed. *)
Lemma receive_puts (m : Message) (w : World) :
  receiver_id m = agent_id (self w) ->
  Queue.full (message_queue (self w)) = false ->
  receive_message m w = print (received_line m w) (queued m w).
Proof.
  intros Hid Hfull.
  unfold receive_message, bind, get_self, queue_put_nowait, bind, get_self,
    Queue.put_nowait.
  rewrite Hid, str_eqb_refl, Hfull. cbn [negb]. rewrite Hfull.
  reflexivity.
Qed.

Lemma receive_enqueues (m : Message) (w : World) :
  receiver_id m = agent_id (self w) ->
  Queue.full (message_queue (self w)) = false ->
  printable (encoder w) (received_line m w) = true ->
  receive_message m w = (Ret tt, enqueued m w).
Proof.
  intros Hid Hfull Hp. rewrite (receive_puts m w Hid Hfull).
  rewrite print_ok; [reflexivity|exact Hp].
Qed.

(** When the line cannot be printed the call raises, with the message
    already in the mailbox. *)
Lemma receive_unprintable (m : Message) (w : World) :
  receiver_id m = agent_id (self w) ->
  Queue.full (message_queue (self w)) = false ->
  printable (encoder w) (received_line m w) = false ->
  receive_message m w = (Raise UnicodeEncodeError, queued m w).
Proof.
  intros Hid Hfull Hp. rewrite (receive_puts m w Hid Hfull).
  rewrite print_fails; [reflexivity|exact Hp].
Qed.

(** The four ways a call of [receive_message] can end. *)
Lemma receive_cases (m : Message) (w : World) :
  (receiver_id m <> agent_id (self w)
   /\ exists msg, receive_message m w = (Raise (CommunicationError msg), w))
  \/ (receiver_id m = agent_id (self w)
      /\ Queue.full (message_queue (self w)) = true
      /\ exists msg, receive_message m w = (Raise (QueueFullError msg), w))
  \/ (receiver_id m = agent_id (self w)
      /\ Queue.full (message_queue (self w)) = false
      /\ printable (encoder w) (received_line m w) = true
      /\ receive_message m w = (Ret tt, enqueued m w))
  \/ (receiver_id m = agent_id (self w)
      /\ Queue.full (message_queue (self w)) = false
      /\ printable (encoder w) (received_line m w) = false
      /\ receive_message m w = (Raise UnicodeEncodeError, queued m w)).
Proof.
  destruct (Str.eqb (receiver_id m) (agent_id (self w))) eqn:E.
  - apply str_eqb_eq in E. right.
    destruct (Queue.full (message_queue (self w))) eqn:F.
    + left. repeat split; auto. eexists. apply receive_full; auto.
    + right. destruct (printable (encoder w) (received_line m w)) eqn:P.
      * left. repeat split; auto. apply receive_enqueues; auto.
      * right. repeat split; auto. apply receive_unprintable; auto.
  - left. assert (receiver_id m <> agent_id (self w)) as N.
    { intro H. apply str_eqb_eq in H. congruence. }
    split; auto. eexists. apply receive_wrong_recipient; auto.
Qed.

Ltac receive_cases m w E :=
  destruct (receive_cases m w)
    as [(? & ? & E)|[(? & ? & ? & E)|[(? & ? & ? & E)|(? & ? & ? & E)]]].

Lemma receive_never_blocks (m : Message) (w : World) :
  fst (receive_message m w) <> Block.
Proof. receive_cases m w E; rewrite E; discriminate. Qed.

(** What a successful call did. *)
Lemma receive_ret_inv (m : Message) (w w' : World) (u : unit) :
  receive_message m w = (Ret u, w') ->
  receiver_id m = agent_id (self w)
  /\ Queue.full (message_queue (self w)) = false
  /\ printable (encoder w) (received_line m w) = true
  /\ w' = enqueued m w.
Proof.
  intro H. receive_cases m w E; rewrite E in H; try discriminate.
  injection H as <-. auto.
Qed.

(** A call either leaves the mailbox as it is or appends the message, and
    it changes nothing else of the agent. *)
Lemma receive_mailbox (m : Message) (w : World) :
  (queue_of (snd (receive_message m w)) = queue_of w
   \/ (queue_of (snd (receive_message m w)) = queue_of w ++ [m]
       /\ receiver_id m = agent_id (self w)
       /\ Queue.full (message_queue (self w)) = false))
  /\ self (snd (receive_message m w))
     = with_items (self w) (queue_of (snd (receive_message m w)))
  /\ encoder (snd (receive_message m w)) = encoder w.
Proof.
  assert (self w = with_items (self w) (queue_of w)) as Hw
    by (destruct w as [[c i md [mx it] b t] o en h tk p]; reflexivity).
  receive_cases m w E; rewrite E; simpl; auto.
Qed.

(** A call that does not return [Ret] and is not a failed print changes
    nothing. *)
Lemma receive_refused (m : Message) (w : World) (msg : pystr) :
  (fst (receive_message m w) = Raise (CommunicationError msg)
   \/ fst (receive_message m w) = Raise (QueueFullError msg)) ->
  snd (receive_message m w) = w.
Proof.
  receive_cases m w E; rewrite E; simpl; auto; intros [X|X]; discriminate.
Qed.

Lemma deliver_mailbox (ms : list Message) (w : World) :
  fst (deliver ms w) + List.length (queue_of w)
    <= List.length (queue_of (snd (deliver ms w)))
  /\ self (snd (deliver ms w)) = with_items (self w) (queue_of (snd (deliver ms w)))
  /\ encoder (snd (deliver ms w)) = encoder w.
Proof.
  revert w. induction ms as [|m ms IH]; intro w; simpl.
  - split; [lia|]. split; [|reflexivity].
    destruct w as [[c i md [mx it] b t] o en h tk p]; reflexivity.
  - destruct (receive_mailbox m w) as (Hq & Hs & He).
    destruct (receive_message m w) as [o w1] eqn:E. simpl in Hq, Hs, He.
    destruct (IH w1) as (IHn & IHs & IHe).
    assert (List.length (queue_of w) <= List.length (queue_of w1)) as Hle.
    { destruct Hq as [->|[-> _]]; [lia|rewrite length_app; simpl; lia]. }
    assert (self (snd (deliver ms w1))
            = with_items (self w) (queue_of (snd (deliver ms w1)))) as Hs'.
    { rewrite IHs, Hs. reflexivity. }
    destruct o as [[]| |].
    + apply receive_ret_inv in E as (_ & _ & _ & ->).
      destruct (deliver ms (enqueued m w)) as [n w2]. simpl in *.
      change (queue_of (enqueued m w)) with (queue_of w ++ [m]) in IHn.
      rewrite length_app in IHn. simpl in IHn.
      repeat split; auto; try congruence. lia.
    + repeat split; auto; try congruence. lia.
    + repeat split; auto; try congruence. lia.
Qed.

(** Concrete scenario 1: capacity 1, [msg1] enqueued, [msg2] refused. *)
Example scenario_capacity_one :
  let w1 := snd (receive_message Scenario.msg1 Scenario.test_agent) in
  fst (receive_message Scenario.msg1 Scenario.test_agent) = Ret tt
  /\ queue_of w1 = [Scenario.msg1]
  /\ receive_message Scenario.msg2 w1
     = (Raise (QueueFullError (lit "Message queue full for agent test_agent")), w1).
Proof. vm_compute. repeat split. Qed.

(** ** Computations that leave the agent alone *)

Lemma inert_ret {A} (a : A) : inert (ret a).
Proof. intro w; simpl; repeat split; discriminate. Qed.

Lemma inert_raise {A} (e : exn) : inert (@raise A e).
Proof. intro w; simpl; repeat split; discriminate. Qed.

Lemma inert_get_self : inert get_self.
Proof. intro w; simpl; repeat split; discriminate. Qed.

Lemma inert_print (line : pystr) : inert (print line).
Proof.
  intro w. unfold print.
  destruct (printable (encoder w) line); simpl; repeat split; discriminate.
Qed.

Lemma inert_sent : inert sent.
Proof. intro w; simpl; repeat split; discriminate. Qed.

Lemma inert_lift {A} (r : exn + A) : inert (lift r).
Proof. destruct r; [apply inert_raise|apply inert_ret]. Qed.

Lemma inert_now (env : Env) : inert (now env).
Proof. intro w; simpl; repeat split; discriminate. Qed.

Lemma inert_post (env : Env) (r : Request) : inert (post env r).
Proof.
  intro w. unfold post.
  destruct (http_post env (posts w) r); simpl; repeat split; discriminate.
Qed.

Lemma inert_bind {A B} (c : M A) (k : A -> M B) :
  inert c -> (forall a, inert (k a)) -> inert (bind c k).
Proof.
  intros Hc Hk w. unfold bind.
  destruct (Hc w) as (Hs & Hh & Hb).
  destruct (c w) as [[a|e|] w1]; simpl in *.
  - destruct (Hk a w1) as (Hs' & Hh' & Hb'). repeat split; congruence.
  - repeat split; auto; discriminate.
  - contradiction.
Qed.

Lemma inert_catch {A} (c : M A) (h : exn -> M A) :
  inert c -> (forall e, inert (h e)) -> inert (catch c h).
Proof.
  intros Hc Hh w. unfold catch.
  destruct (Hc w) as (Hs & Hy & Hb).
  destruct (c w) as [[a|e|] w1]; simpl in *.
  - repeat split; auto; discriminate.
  - destruct (Hh e w1) as (Hs' & Hy' & Hb'). repeat split; congruence.
  - contradiction.
Qed.

Create HintDb inert.
#[local] Hint Resolve inert_ret inert_raise inert_get_self inert_print inert_lift
  inert_now inert_post inert_sent : inert.

Ltac inert_steps :=
  repeat first
    [ solve [auto with inert]
    | apply inert_bind; [| intro]
    | apply inert_catch; [| intro] ].

Lemma inert_Message_new (env : Env) (s r c : pyval) (t : option pyval) :
  inert (Message_new env s r c t).
Proof.
  unfold Message_new. inert_steps.
  destruct s, r, c, (match t with Some t0 => t0 | None => PStr (lit "general") end);
    auto with inert.
Qed.

#[local] Hint Resolve inert_Message_new : inert.

Lemma inert_send_message (env : Env) (to body : pyval) (t : option pyval) :
  inert (send_message env to body t).
Proof.
  unfold send_message. inert_steps.
Qed.

Lemma inert_generate_question (env : Env) (topic : pystr) :
  inert (generate_question env topic).
Proof. unfold generate_question. inert_steps. Qed.

Lemma inert_generate_answer (env : Env) (question : pystr) :
  inert (generate_answer env question).
Proof. unfold generate_answer. inert_steps. Qed.

#[local] Hint Resolve inert_send_message inert_generate_answer : inert.

Lemma inert_handle_message (env : Env) (m : Message) :
  inert (_handle_message env m).
Proof.
  unfold _handle_message. inert_steps.
  destruct (cls a).
  - apply inert_raise.
  - unfold QuestionAgent_handle_message. inert_steps.
  - unfold AnswerAgent_handle_message.
    destruct (Str.eqb (message_type m) (lit "question")); inert_steps.
Qed.

Lemma handle_message_frame (env : Env) : handler_frame (_handle_message env).
Proof. intros m w. apply inert_handle_message. Qed.

(** ** Computations that leave the encoding of standard output alone *)

Lemma steady_ret {A} (a : A) : steady (ret a).
Proof. intro w; reflexivity. Qed.

Lemma steady_raise {A} (e : exn) : steady (@raise A e).
Proof. intro w; reflexivity. Qed.

Lemma steady_get_self : steady get_self.
Proof. intro w; reflexivity. Qed.

Lemma steady_sent : steady sent.
Proof. intro w; reflexivity. Qed.

Lemma steady_print (line : pystr) : steady (print line).
Proof. intro w. unfold print. destruct (printable (encoder w) line); reflexivity. Qed.

Lemma steady_lift {A} (r : exn + A) : steady (lift r).
Proof. destruct r; intro w; reflexivity. Qed.

Lemma steady_now (env : Env) : steady (now env).
Proof. intro w; reflexivity. Qed.

Lemma steady_post (env : Env) (r : Request) : steady (post env r).
Proof. intro w. unfold post. destruct (http_post env (posts w) r); reflexivity. Qed.

Lemma steady_bind {A B} (c : M A) (k : A -> M B) :
  steady c -> (forall a, steady (k a)) -> steady (bind c k).
Proof.
  intros Hc Hk w. unfold bind. specialize (Hc w).
  destruct (c w) as [[a|e|] w1]; simpl in *; auto.
  rewrite (Hk a w1). exact Hc.
Qed.

Lemma steady_catch {A} (c : M A) (h : exn -> M A) :
  steady c -> (forall e, steady (h e)) -> steady (catch c h).
Proof.
  intros Hc Hh w. unfold catch. specialize (Hc w).
  destruct (c w) as [[a|e|] w1]; simpl in *; auto.
  rewrite (Hh e w1). exact Hc.
Qed.

Create HintDb steady.
#[local] Hint Resolve steady_ret steady_raise steady_get_self steady_sent steady_print
  steady_lift steady_now steady_post : steady.

Ltac steady_steps :=
  repeat first
    [ solve [auto with steady]
    | apply steady_bind; [| intro]
    | apply steady_catch; [| intro] ].

Lemma steady_Message_new (env : Env) (s r c : pyval) (t : option pyval) :
  steady (Message_new env s r c t).
Proof.
  unfold Message_new. steady_steps.
  destruct s, r, c, (match t with Some t0 => t0 | None => PStr (lit "general") end);
    auto with steady.
Qed.

#[local] Hint Resolve steady_Message_new : steady.

Lemma steady_send_message (env : Env) (to body : pyval) (t : option pyval) :
  steady (send_message env to body t).
Proof. unfold send_message. steady_steps. Qed.

Lemma steady_generate_answer (env : Env) (question : pystr) :
  steady (generate_answer env question).
Proof. unfold generate_answer. steady_steps. Qed.

#[local] Hint Resolve steady_send_message steady_generate_answer : steady.

Lemma handle_message_encoder (env : Env) (m : Message) (w : World) :
  encoder (snd (_handle_message env m w)) = encoder w.
Proof.
  revert w. change (steady (_handle_message env m)).
  unfold _handle_message. steady_steps.
  destruct (cls a).
  - apply steady_raise.
  - unfold QuestionAgent_handle_message. steady_steps.
  - unfold AnswerAgent_handle_message.
    destruct (Str.eqb (message_type m) (lit "question")); steady_steps.
Qed.

(** ** The processing loop *)

Lemma with_items_self (w : World) : self w = with_items (self w) (queue_of w).
Proof. destruct w as [[c i m [mx it] b t] o en h tk p]. reflexivity. Qed.

Lemma at_dispatch_world (m : Message) (rest : list Message) (w : World) :
  queue_of w = m :: rest ->
  at_dispatch m w = {| self := with_items (self w) rest; stdout := stdout w;
                       encoder := encoder w;
                       history := history w ++ [Dispatched m];
                       ticks := ticks w; posts := posts w |}.
Proof.
  intro H. unfold queue_of in H.
  unfold at_dispatch, queue_get, bind, get_self, Queue.get.
  rewrite H. reflexivity.
Qed.

Lemma at_dispatch_self (m : Message) (rest : list Message) (w : World) :
  queue_of w = m :: rest -> self (at_dispatch m w) = with_items (self w) rest.
Proof. intro H. rewrite (at_dispatch_world _ H). reflexivity. Qed.

Lemma at_dispatch_head (m : Message) (rest : list Message) (w : World) :
  queue_of w = m :: rest ->
  queue_of (at_dispatch m w) = rest
  /\ history (at_dispatch m w) = history w ++ [Dispatched m]
  /\ agent_id (self (at_dispatch m w)) = agent_id (self w)
  /\ Queue.maxsize (message_queue (self (at_dispatch m w)))
     = Queue.maxsize (message_queue (self w))
  /\ cls (self (at_dispatch m w)) = cls (self w)
  /\ stdout (at_dispatch m w) = stdout w.
Proof.
  intro H. rewrite (at_dispatch_world _ H). repeat split; reflexivity.
Qed.

Lemma record_world (e : Event) (w : World) :
  self (snd (record e w)) = self w
  /\ history (snd (record e w)) = history w ++ [e].
Proof. split; reflexivity. Qed.

Lemma dispatches_app (h1 h2 : list Event) :
  dispatches (h1 ++ h2) = dispatches h1 ++ dispatches h2.
Proof.
  induction h1 as [|[m|m r] h1 IH]; simpl; congruence.
Qed.

Section Loop.

Variable handle : Message -> M (option Message).

Lemma loop_empty (fuel : nat) (w : World) :
  queue_of w = [] -> process_messages_with handle (S fuel) w = (Ret tt, w).
Proof.
  intro H. unfold queue_of in H. simpl.
  unfold bind, get_self, Queue.empty. rewrite H. reflexivity.
Qed.

(** One iteration on a mailbox with head [m]. *)
Lemma loop_cons (fuel : nat) (w : World) (m : Message) (rest : list Message) :
  queue_of w = m :: rest ->
  process_messages_with handle (S fuel) w =
    match handle m (at_dispatch m w) with
    | (Ret r, w1) => process_messages_with handle fuel (snd (record (Returned m r) w1))
    | (Raise e, w1) => (Raise e, w1)
    | (Block, w1) => (Block, w1)
    end.
Proof.
  intro H. unfold queue_of in H.
  cbn [process_messages_with].
  unfold at_dispatch, queue_get, bind, get_self, Queue.empty, Queue.get.
  rewrite H. cbn. rewrite H. cbn.
  destruct (handle m _) as [[r|e|] w1]; reflexivity.
Qed.

Hypothesis frame : handler_frame handle.

(** What a run of the loop does, whatever its outcome: it calls the handler
    on the first [k] messages of the mailbox, in order and one after the
    other, and leaves the others. *)
Lemma loop_spec (fuel : nat) (w : World) :
  exists (k : nat) (h : list Event),
    history (snd (process_messages_with handle fuel w)) = history w ++ h
    /\ Serial h
    /\ dispatches h = firstn k (queue_of w)
    /\ queue_of (snd (process_messages_with handle fuel w)) = skipn k (queue_of w)
    /\ k <= List.length (queue_of w)
    /\ agent_id (self (snd (process_messages_with handle fuel w))) = agent_id (self w)
    /\ match fst (process_messages_with handle fuel w) with
       | Ret _ => k = List.length (queue_of w)
       | Raise _ => 0 < k
       | Block => k = fuel
       end.
Proof.
  revert w. induction fuel as [|fuel IH]; intro w.
  - exists 0, []. simpl. rewrite app_nil_r.
    repeat split; auto using Serial_nil. lia.
  - destruct (queue_of w) as [|m rest] eqn:Q.
    + rewrite (loop_empty _ _ Q). exists 0, []. simpl. rewrite app_nil_r, Q.
      repeat split; auto using Serial_nil.
    + rewrite (loop_cons _ _ Q).
      destruct (at_dispatch_head _ Q) as (Dq & Dh & Did & _).
      destruct (frame m (at_dispatch m w)) as (Fs & Fh & Fb).
      destruct (handle m (at_dispatch m w)) as [[r|e|] w1]; simpl in Fs, Fh, Fb.
      * set (w2 := snd (record (Returned m r) w1)).
        assert (queue_of w2 = rest) as Q2.
        { unfold w2, queue_of. simpl. rewrite Fs. exact Dq. }
        assert (history w2 = history w ++ [Dispatched m; Returned m r]) as H2.
        { unfold w2. simpl. rewrite Fh, Dh, <- app_assoc. reflexivity. }
        assert (agent_id (self w2) = agent_id (self w)) as I2.
        { unfold w2. simpl. rewrite Fs. exact Did. }
        destruct (IH w2) as (k & h & Hh & Hs & Hd & Hq & Hk & Hid & Ho).
        exists (S k), (Dispatched m :: Returned m r :: h).
        rewrite Hh, H2, <- app_assoc, Hq, Q2, Hid, I2. simpl.
        rewrite Hd, Q2. rewrite Q2 in Hk, Ho.
        repeat split; auto using Serial_cons; try lia.
        destruct (fst (process_messages_with handle fuel w2)); lia.
      * assert (queue_of w1 = rest) as Q1.
        { unfold queue_of. rewrite Fs. exact Dq. }
        exists 1, [Dispatched m]. simpl.
        rewrite Fh, Dh, Q1, Fs, Did.
        repeat split; auto using Serial_open; lia.
      * contradiction.
Qed.


(** The loop changes nothing of the agent but the items of its mailbox. *)
Lemma loop_self (fuel : nat) (w : World) :
  self (snd (process_messages_with handle fuel w))
  = with_items (self w) (queue_of (snd (process_messages_with handle fuel w))).
Proof.
  revert w. induction fuel as [|fuel IH]; intro w.
  - apply with_items_self.
  - destruct (queue_of w) as [|m rest] eqn:Q.
    + rewrite (loop_empty _ _ Q). apply with_items_self.
    + rewrite (loop_cons _ _ Q).
      pose proof (at_dispatch_self _ Q) as Ds.
      destruct (frame m (at_dispatch m w)) as (Fs & _ & Fb).
      destruct (handle m (at_dispatch m w)) as [[r|e|] w1]; simpl in Fs, Fb.
      * rewrite IH. simpl. rewrite Fs, Ds. reflexivity.
      * simpl. rewrite (with_items_self w1), Fs, Ds. reflexivity.
      * contradiction.
Qed.

(** The handler calls on a prefix [ms] of the mailbox that all return are
    the first iterations of the loop. *)
Lemma handled_prefix (ms : list Message) :
  forall (w w' : World) (rest : list Message),
    queue_of w = ms ++ rest ->
    handled handle ms w = Some w' ->
    queue_of w' = rest
    /\ self w' = with_items (self w) rest
    /\ dispatches (history w') = dispatches (history w) ++ ms
    /\ forall fuel,
         process_messages_with handle (List.length ms + fuel) w
         = process_messages_with handle fuel w'.
Proof.
  induction ms as [|m ms IH]; intros w w' rest Q Hh.
  - simpl in *. injection Hh as <-. rewrite app_nil_r.
    repeat split; auto. rewrite <- Q. apply with_items_self.
  - simpl in Q, Hh.
    destruct (at_dispatch_head _ Q) as (Dq & Dh & _).
    pose proof (at_dispatch_self _ Q) as Ds.
    destruct (frame m (at_dispatch m w)) as (Fs & Fh & _).
    destruct (handle m (at_dispatch m w)) as [[r|e|] w1] eqn:E;
      try discriminate. simpl in Fs, Fh.
    set (w2 := snd (record (Returned m r) w1)) in *.
    assert (queue_of w2 = ms ++ rest) as Q2.
    { unfold w2, queue_of. simpl. rewrite Fs. exact Dq. }
    destruct (IH w2 w' rest Q2 Hh) as (Hq & Hs & Hd & Hrun).
    split; [exact Hq|]. split; [|split].
    + rewrite Hs. unfold w2. simpl. rewrite Fs, Ds. reflexivity.
    + rewrite Hd. unfold w2. simpl. rewrite Fh, Dh.
      rewrite !dispatches_app. simpl. rewrite <- !app_assoc. reflexivity.
    + intro fuel.
      change (List.length (m :: ms) + fuel) with (S (List.length ms + fuel)).
      rewrite (loop_cons _ _ Q), E. apply Hrun.
Qed.

(** A run returns exactly when every handler call on the mailbox returns. *)
Lemma loop_ret_handled (fuel : nat) (w : World) :
  fst (process_messages_with handle fuel w) = Ret tt ->
  handled handle (queue_of w) w = Some (snd (process_messages_with handle fuel w)).
Proof.
  revert w. induction fuel as [|fuel IH]; intro w; [discriminate|].
  destruct (queue_of w) as [|m rest] eqn:Q.
  - rewrite (loop_empty _ _ Q). reflexivity.
  - rewrite (loop_cons _ _ Q). simpl.
    destruct (at_dispatch_head _ Q) as (Dq & _).
    destruct (frame m (at_dispatch m w)) as (Fs & _ & _).
    destruct (handle m (at_dispatch m w)) as [[r|e|] w1]; try discriminate.
    simpl in Fs. intro H.
    assert (queue_of (snd (record (Returned m r) w1)) = rest) as Q2.
    { unfold queue_of. simpl. rewrite Fs. exact Dq. }
    rewrite <- Q2 at 1. apply IH. exact H.
Qed.

(** A run raises exactly at the first handler call that raises. *)
Lemma loop_raise_handled (fuel : nat) (w : World) (e : exn) :
  fst (process_messages_with handle fuel w) = Raise e ->
  exists done m rest wd,
    queue_of w = done ++ m :: rest
    /\ handled handle done w = Some wd
    /\ handle m (at_dispatch m wd)
       = (Raise e, snd (process_messages_with handle fuel w)).
Proof.
  revert w. induction fuel as [|fuel IH]; intro w; [discriminate|].
  destruct (queue_of w) as [|m rest] eqn:Q.
  - rewrite (loop_empty _ _ Q). discriminate.
  - rewrite (loop_cons _ _ Q).
    destruct (at_dispatch_head _ Q) as (Dq & _).
    destruct (frame m (at_dispatch m w)) as (Fs & _ & _).
    destruct (handle m (at_dispatch m w)) as [[r|e'|] w1] eqn:E; try discriminate.
    + simpl in Fs. intro H.
      assert (queue_of (snd (record (Returned m r) w1)) = rest) as Q2.
      { unfold queue_of. simpl. rewrite Fs. exact Dq. }
      destruct (IH _ H) as (done & m' & rest' & wd & Hq & Hd & Hm).
      exists (m :: done), m', rest', wd. rewrite Q2 in Hq.
      split; [simpl; congruence|]. split; [|exact Hm].
      simpl. rewrite E. exact Hd.
    + simpl. intro H. injection H as <-.
      exists [], m, rest, w. repeat split. exact E.
Qed.

(** The run, when the handler raises after returning on [done]. *)
Lemma loop_raises_after (fuel : nat) (w wd w1 : World) (done rest : list Message)
    (m : Message) (e : exn) :
  queue_of w = done ++ m :: rest ->
  handled handle done w = Some wd ->
  handle m (at_dispatch m wd) = (Raise e, w1) ->
  List.length done < fuel ->
  process_messages_with handle fuel w = (Raise e, w1)
  /\ queue_of wd = m :: rest.
Proof.
  intros Q Hd Hm Hf.
  destruct (handled_prefix done w (m :: rest) Q Hd) as (Qd & _ & _ & Hrun).
  split; [|exact Qd].
  replace fuel with (List.length done + S (fuel - List.length done - 1)) by lia.
  rewrite Hrun, (loop_cons _ _ Qd), Hm. reflexivity.
Qed.


End Loop.

(** ** Backpressure *)

Lemma capacity_same_self (w w' : World) :
  self w' = self w -> within_capacity w -> within_capacity w'.
Proof. unfold within_capacity, queue_of. intros ->. auto. Qed.

Lemma capacity_received (m : Message) (w : World) :
  within_capacity w -> within_capacity (snd (receive_message m w)).
Proof.
  intro Hcap. destruct (receive_mailbox m w) as ([Hq|(Hq & _ & Hfull)] & Hs & _).
  - apply (@capacity_same_self w); [|exact Hcap].
    rewrite Hs, Hq. symmetry. apply with_items_self.
  - unfold within_capacity in *. rewrite Hs. unfold queue_of at 1. rewrite Hs.
    simpl. fold (queue_of (snd (receive_message m w))). rewrite Hq.
    intro Hpos. clear Hcap.
    unfold Queue.full, Queue.qsize in Hfull. fold (queue_of w) in Hfull.
    apply andb_false_iff in Hfull as [H|H].
    + apply Z.ltb_ge in H. lia.
    + apply Z.leb_gt in H. rewrite length_app. simpl. lia.
Qed.

Lemma capacity_delivered (ms : list Message) (w : World) :
  within_capacity w -> within_capacity (snd (deliver ms w)).
Proof.
  revert w. induction ms as [|m ms IH]; intros w Hcap; [exact Hcap|].
  simpl. pose proof (capacity_received m Hcap) as H1.
  destruct (receive_message m w) as [[[]|e|] w1]; simpl in H1.
  - specialize (IH w1 H1). destruct (deliver ms w1). exact IH.
  - apply IH. exact H1.
  - apply IH. exact H1.
Qed.

(** C1. Take an agent whose mailbox is empty and has capacity C > 0, and any
    series of [receive_message] calls of which exactly C succeed.  A further
    call with a correctly addressed message raises [QueueFullError] and
    leaves the world as it was; the mailbox still holds C messages; the call
    does not block. *)
Theorem mailbox_overflow (w0 : World) (ms : list Message) (m : Message) (C : Z) :
  (0 < C)%Z ->
  Queue.maxsize (message_queue (self w0)) = C ->
  queue_of w0 = [] ->
  Z.of_nat (fst (deliver ms w0)) = C ->
  receiver_id m = agent_id (self w0) ->
  let w := snd (deliver ms w0) in
  (exists msg, receive_message m w = (Raise (QueueFullError msg), w))
  /\ Z.of_nat (List.length (queue_of w)) = C
  /\ Z.of_nat (List.length (queue_of (snd (receive_message m w)))) = C
  /\ fst (receive_message m w) <> Block.
Proof.
  intros HC Hmax Hempty Hn Hid w.
  destruct (deliver_mailbox ms w0) as (Hlen & Hself & _). fold w in Hlen, Hself.
  assert (within_capacity w0) as Hcap0.
  { unfold within_capacity. rewrite Hempty. simpl. lia. }
  pose proof (capacity_delivered ms Hcap0) as Hcap. fold w in Hcap.
  assert (Queue.maxsize (message_queue (self w)) = C) as Hsize
    by (rewrite Hself; exact Hmax).
  assert (agent_id (self w) = agent_id (self w0)) as Hsame
    by (rewrite Hself; reflexivity).
  unfold within_capacity in Hcap. rewrite Hsize in Hcap. specialize (Hcap HC).
  assert (Z.of_nat (List.length (queue_of w)) = C) as HlenC by lia.
  assert (Queue.full (message_queue (self w)) = true) as Hfull.
  { unfold Queue.full, Queue.qsize. fold (queue_of w).
    rewrite Hsize, HlenC.
    apply andb_true_iff. split; [apply Z.ltb_lt|apply Z.leb_le]; lia. }
  assert (receiver_id m = agent_id (self w)) as Hid' by congruence.
  pose proof (receive_full m w Hid' Hfull) as E.
  split; [eexists; exact E|].
  split; [exact HlenC|].
  rewrite E. simpl. split; [exact HlenC|discriminate].
Qed.

Lemma mailbox_overflow_witness :
  let w := snd (deliver [Scenario.msg1] Scenario.test_agent) in
  (exists msg, receive_message Scenario.msg2 w = (Raise (QueueFullError msg), w))
  /\ Z.of_nat (List.length (queue_of w)) = 1%Z
  /\ Z.of_nat (List.length (queue_of (snd (receive_message Scenario.msg2 w)))) = 1%Z
  /\ fst (receive_message Scenario.msg2 w) <> Block.
Proof.
  apply (@mailbox_overflow Scenario.test_agent [Scenario.msg1] Scenario.msg2 1%Z).
  - lia.
  - reflexivity.
  - reflexivity.
  - reflexivity.
  - reflexivity.
Defined.

(** ** The receiver-identity invariant *)

Lemma addressed_same_self (w w' : World) :
  self w' = self w -> mailbox_addressed w -> mailbox_addressed w'.
Proof. unfold mailbox_addressed, queue_of. intros ->. auto. Qed.

Lemma addressed_received (m : Message) (w : World) :
  mailbox_addressed w -> mailbox_addressed (snd (receive_message m w)).
Proof.
  intro Hw. destruct (receive_mailbox m w) as ([Hq|(Hq & Hid & _)] & Hs & _).
  - apply (@addressed_same_self w); [|exact Hw].
    rewrite Hs, Hq. symmetry. apply with_items_self.
  - unfold mailbox_addressed in *. rewrite Hq, Hs. simpl.
    apply Forall_app. split; [exact Hw|]. constructor; [exact Hid|constructor].
Qed.

Lemma addressed_skipn (k : nat) (w w' : World) :
  agent_id (self w') = agent_id (self w) ->
  queue_of w' = skipn k (queue_of w) ->
  mailbox_addressed w -> mailbox_addressed w'.
Proof.
  unfold mailbox_addressed. intros Hid Hq H. rewrite Hq, Hid.
  apply Forall_forall. intros x Hx.
  rewrite Forall_forall in H. apply H.
  rewrite <- (firstn_skipn k (queue_of w)). apply in_or_app. right. exact Hx.
Qed.

Lemma reachable_addressed (env : Env) (w : World) :
  reachable env w -> mailbox_addressed w.
Proof.
  induction 1 as [enc c id mdl size|o w Hr IH].
  - constructor.
  - destruct o as [t b mt|m|fuel|topic|q]; simpl.
    + apply (@addressed_same_self w); [apply inert_send_message|exact IH].
    + apply addressed_received. exact IH.
    + destruct (@loop_spec (_handle_message env) (handle_message_frame env) fuel w)
        as (k & h & _ & _ & _ & Hq & _ & Hid & _).
      apply (@addressed_skipn k w); [exact Hid|exact Hq|exact IH].
    + apply (@addressed_same_self w); [apply inert_generate_question|exact IH].
    + apply (@addressed_same_self w); [apply inert_generate_answer|exact IH].
Qed.

(** C2. In every world an agent can reach: [receive_message] raises
    [CommunicationError] and changes nothing when the message is addressed to
    someone else; when it succeeds, the message is addressed to the agent and
    is appended to the mailbox; and every message in the mailbox is addressed
    to the agent. *)
Theorem receiver_identity (env : Env) (w : World) (m : Message) :
  reachable env w ->
  (receiver_id m <> agent_id (self w) ->
   exists msg, receive_message m w = (Raise (CommunicationError msg), w))
  /\ (forall w', receive_message m w = (Ret tt, w') ->
                 receiver_id m = agent_id (self w)
                 /\ queue_of w' = queue_of w ++ [m])
  /\ (forall m', In m' (queue_of w) -> receiver_id m' = agent_id (self w))
  /\ (forall m', In m' (queue_of (snd (receive_message m w))) ->
                 receiver_id m' = agent_id (self w)).
Proof.
  intro Hr.
  pose proof (reachable_addressed Hr) as Hw.
  pose proof (reachable_addressed (reach_step (OpReceive m) Hr)) as Hw'.
  unfold mailbox_addressed in Hw, Hw'. rewrite Forall_forall in Hw, Hw'.
  simpl in Hw'.
  split; [|split; [|split]].
  - intro Hne. eexists. apply receive_wrong_recipient. exact Hne.
  - intros w' E. apply receive_ret_inv in E as (Hid & _ & _ & ->). split; auto.
  - exact Hw.
  - intros m' Hin. rewrite (Hw' m' Hin).
    destruct (receive_mailbox m w) as (_ & Hs & _). rewrite Hs. reflexivity.
Qed.

Lemma receiver_identity_witness :
  let w := snd (receive_message Scenario.msg1 Scenario.test_agent) in
  (receiver_id Scenario.question <> agent_id (self w) ->
   exists msg, receive_message Scenario.question w = (Raise (CommunicationError msg), w))
  /\ (forall w', receive_message Scenario.question w = (Ret tt, w') ->
                 receiver_id Scenario.question = agent_id (self w)
                 /\ queue_of w' = queue_of w ++ [Scenario.question])
  /\ (forall m', In m' (queue_of w) -> receiver_id m' = agent_id (self w))
  /\ (forall m', In m' (queue_of (snd (receive_message Scenario.question w))) ->
                 receiver_id m' = agent_id (self w)).
Proof.
  apply (@receiver_identity (Scenario.serving Scenario.hello_body)).
  apply (@reach_step _ (OpReceive Scenario.msg1) Scenario.test_agent).
  apply reach_init.
Defined.

(** ** Order of dispatch *)

Lemma deliver_appends (ms : list Message) (w : World) :
  exists q, queue_of (snd (deliver ms w)) = queue_of w ++ q.
Proof.
  revert w. induction ms as [|m ms IH]; intro w; simpl.
  - exists []. rewrite app_nil_r. reflexivity.
  - destruct (receive_mailbox m w) as (Hq & _).
    assert (exists q, queue_of (snd (deliver ms (snd (receive_message m w))))
                      = queue_of w ++ q) as H.
    { destruct (IH (snd (receive_message m w))) as [q E].
      destruct Hq as [Hq|(Hq & _)]; rewrite Hq in E.
      - exists q. exact E.
      - exists (m :: q). rewrite E, <- app_assoc. reflexivity. }
    destruct (receive_message m w) as [[[]|e|] w1]; simpl in H |- *; auto.
    destruct (deliver ms w1). exact H.
Qed.

Lemma handled_app (handle : Message -> M (option Message)) (a b : list Message) :
  forall w,
    handled handle (a ++ b) w =
      match handled handle a w with
      | Some w' => handled handle b w'
      | None => None
      end.
Proof.
  induction a as [|m a IH]; intro w; simpl; [reflexivity|].
  destruct (handle m (at_dispatch m w)) as [[r|e|] w1]; auto.
Qed.

Lemma prefix_split {A} (done P : list A) :
  forall (m : A) (rest S : list A),
    done ++ m :: rest = P ++ S ->
    List.length done < List.length P ->
    exists P', P = done ++ m :: P'.
Proof.
  revert P. induction done as [|x done IH]; intros [|y P] m rest S E Hl;
    simpl in *; try lia.
  - injection E as -> _. eauto.
  - injection E as -> E. destruct (IH P m rest S E) as [P' ->]; [lia|]. eauto.
Qed.

(** A run cannot raise inside a prefix [P] of the mailbox on which every
    handler call returns. *)
Lemma raise_past_prefix (handle : Message -> M (option Message))
    (w wd wd' w1 : World) (P S done rest : list Message) (m : Message) (e : exn) :
  queue_of w = P ++ S ->
  handled handle P w = Some wd ->
  queue_of w = done ++ m :: rest ->
  handled handle done w = Some wd' ->
  handle m (at_dispatch m wd') = (Raise e, w1) ->
  List.length P <= List.length done.
Proof.
  intros Q HP Q' Hd Hm.
  destruct (Nat.le_gt_cases (List.length P) (List.length done)) as [|Hlt]; [assumption|].
  exfalso.
  rewrite Q in Q'. symmetry in Q'.
  destruct (prefix_split done P m rest S Q' Hlt) as [P' ->].
  rewrite handled_app, Hd in HP. simpl in HP. rewrite Hm in HP. discriminate.
Qed.

Section LoopOrder.

Variable handle : Message -> M (option Message).
Hypothesis frame : handler_frame handle.

(** Where a run that raises stops: after the handler returned on [done] and
    raised on the next message [m]; [m] is out of the mailbox, the messages
    behind it are still in. *)
Lemma loop_raise_position (fuel : nat) (w : World) (e : exn) :
  fst (process_messages_with handle fuel w) = Raise e ->
  exists done m rest wd,
    queue_of w = done ++ m :: rest
    /\ handled handle done w = Some wd
    /\ handle m (at_dispatch m wd) = (Raise e, snd (process_messages_with handle fuel w))
    /\ queue_of (snd (process_messages_with handle fuel w)) = rest
    /\ history (snd (process_messages_with handle fuel w)) = history wd ++ [Dispatched m]
    /\ dispatches (history wd) = dispatches (history w) ++ done.
Proof.
  intro H.
  destruct (@loop_raise_handled handle frame fuel w e H)
    as (done & m & rest & wd & Q & Hd & Hm).
  exists done, m, rest, wd.
  destruct (@handled_prefix handle frame done w wd (m :: rest) Q Hd) as (Qd & _ & Dd & _).
  destruct (at_dispatch_head _ Qd) as (Dq & Dh & _).
  destruct (frame m (at_dispatch m wd)) as (Fs & Fh & _).
  rewrite Hm in Fs, Fh. simpl in Fs, Fh.
  repeat split; auto.
  - unfold queue_of. rewrite Fs. exact Dq.
  - rewrite Fh. exact Dh.
Qed.

End LoopOrder.

(** C3. If [m1] is enqueued, then (after any further deliveries) [m2] is
    enqueued, then [process_messages] runs: the mailbox reads
    [q0 ++ m1 :: q1 ++ m2 :: q2]; the handler calls of the run are the first
    [k] messages of the mailbox in that order, each call followed by its
    return before the next call, and the other messages stay; a run that
    returns has called the handler on the whole mailbox; a run that raises
    has called it on the messages it returned on and on the one it raised
    on, and on no other; and with more fuel than messages the run ends, and
    if the handler returns on the messages up to [m2], it is called on [m2],
    after it was called on [m1]. *)
Theorem fifo_dispatch (env : Env) (w0 w1 w3 : World) (m1 m2 : Message)
    (mid later : list Message) (fuel : nat) :
  receive_message m1 w0 = (Ret tt, w1) ->
  receive_message m2 (snd (deliver mid w1)) = (Ret tt, w3) ->
  let w := snd (deliver later w3) in
  let r := process_messages env fuel w in
  exists q0 q1 q2 k h,
    queue_of w = q0 ++ m1 :: q1 ++ m2 :: q2
    /\ history (snd r) = history w ++ h
    /\ Serial h
    /\ dispatches h = firstn k (queue_of w)
    /\ queue_of (snd r) = skipn k (queue_of w)
    /\ k <= List.length (queue_of w)
    /\ (List.length q0 + List.length q1 + 1 < k ->
        exists d, dispatches h = q0 ++ m1 :: q1 ++ m2 :: d)
    /\ (fst r = Ret tt ->
        k = List.length (queue_of w) /\ dispatches h = queue_of w
        /\ handled (_handle_message env) (queue_of w) w = Some (snd r))
    /\ (forall e, fst r = Raise e ->
        exists done m rest wd,
          queue_of w = done ++ m :: rest
          /\ k = S (List.length done)
          /\ handled (_handle_message env) done w = Some wd
          /\ _handle_message env m (at_dispatch m wd) = (Raise e, snd r))
    /\ (List.length (queue_of w) < fuel ->
        fst r <> Block
        /\ forall wd, handled (_handle_message env) (q0 ++ m1 :: q1) w = Some wd ->
                      List.length q0 + List.length q1 + 1 < k).
Proof.
  intros E1 E2 w r.
  apply receive_ret_inv in E1 as (_ & _ & _ & ->).
  apply receive_ret_inv in E2 as (_ & _ & _ & ->).
  destruct (deliver_appends mid (enqueued m1 w0)) as [q1 Hq1].
  destruct (deliver_appends later (enqueued m2 (snd (deliver mid (enqueued m1 w0)))))
    as [q2 Hq2].
  fold w in Hq2.
  assert (queue_of w = queue_of w0 ++ m1 :: q1 ++ m2 :: q2) as Hq.
  { rewrite Hq2.
    change (queue_of (enqueued m2 (snd (deliver mid (enqueued m1 w0)))))
      with (queue_of (snd (deliver mid (enqueued m1 w0))) ++ [m2]).
    rewrite Hq1.
    change (queue_of (enqueued m1 w0)) with (queue_of w0 ++ [m1]).
    repeat rewrite <- app_assoc. reflexivity. }
  destruct (@loop_spec (_handle_message env) (handle_message_frame env) fuel w)
    as (k & h & Hh & Hs & Hd & Hrest & Hk & _ & Ho).
  fold (process_messages env fuel w) in Hh, Hrest, Ho. fold r in Hh, Hrest, Ho.
  assert (forall e, fst r = Raise e ->
          exists done m rest wd,
            queue_of w = done ++ m :: rest
            /\ k = S (List.length done)
            /\ handled (_handle_message env) done w = Some wd
            /\ _handle_message env m (at_dispatch m wd) = (Raise e, snd r)) as Hraise.
  { intros e He.
    destruct (@loop_raise_position (_handle_message env) (handle_message_frame env)
                fuel w e He)
      as (done & m & rest & wd & Q & Hdone & Hm & Qr & _).
    fold (process_messages env fuel w) in Hm, Qr. fold r in Hm, Qr.
    exists done, m, rest, wd. repeat split; auto.
    rewrite Hrest in Qr.
    assert (List.length (skipn k (queue_of w)) = List.length rest) as L by congruence.
    rewrite length_skipn, Q, length_app in L. simpl in L.
    rewrite Q, length_app in Hk. simpl in Hk. lia. }
  exists (queue_of w0), q1, q2, k, h.
  split; [exact Hq|]. split; [exact Hh|]. split; [exact Hs|].
  split; [exact Hd|]. split; [exact Hrest|]. split; [exact Hk|].
  split; [|split; [|split; [exact Hraise|]]].
  - intro Hlt. rewrite Hd, Hq.
    exists (firstn (k - (List.length (queue_of w0) + List.length q1 + 2)) q2).
    replace (queue_of w0 ++ m1 :: q1 ++ m2 :: q2)
      with ((queue_of w0 ++ m1 :: q1 ++ [m2]) ++ q2)
      by (repeat (rewrite <- app_assoc; simpl); reflexivity).
    replace k with (List.length (queue_of w0 ++ m1 :: q1 ++ [m2])
                    + (k - (List.length (queue_of w0) + List.length q1 + 2))) at 1
      by (repeat (rewrite length_app; simpl); lia).
    rewrite firstn_app_2.
    repeat (rewrite <- app_assoc; simpl). reflexivity.
  - intro Hret. rewrite Hret in Ho. split; [exact Ho|].
    split; [rewrite Hd, Ho; apply firstn_all|].
    apply (@loop_ret_handled (_handle_message env) (handle_message_frame env) fuel w Hret).
  - intro Hf. split; [intro Hb; rewrite Hb in Ho; lia|].
    intros wd Hwd.
    assert (queue_of w = (queue_of w0 ++ m1 :: q1) ++ m2 :: q2) as Hq'
      by (rewrite Hq, <- app_assoc; reflexivity).
    destruct (fst r) as [u|e|] eqn:Er.
    + rewrite Ho, Hq. repeat (rewrite length_app; simpl). lia.
    + destruct (Hraise e eq_refl) as (done & m & rest & wd' & Q & -> & Hd' & Hm').
      pose proof (@raise_past_prefix (_handle_message env) w wd wd' (snd r)
                    (queue_of w0 ++ m1 :: q1) (m2 :: q2) done rest m e
                    Hq' Hwd Q Hd' Hm') as Hl.
      rewrite length_app in Hl. simpl in Hl. lia.
    + lia.
Qed.

Lemma fifo_dispatch_witness :
  let env := Scenario.serving Scenario.hello_body in
  let w := snd (deliver [] (enqueued Scenario.msg2 (snd (deliver []
                 (enqueued Scenario.msg1 Scenario.questioner))))) in
  let r := process_messages env 3 w in
  exists q0 q1 q2 k h,
    queue_of w = q0 ++ Scenario.msg1 :: q1 ++ Scenario.msg2 :: q2
    /\ history (snd r) = history w ++ h
    /\ Serial h
    /\ dispatches h = firstn k (queue_of w)
    /\ queue_of (snd r) = skipn k (queue_of w)
    /\ k <= List.length (queue_of w)
    /\ (List.length q0 + List.length q1 + 1 < k ->
        exists d, dispatches h = q0 ++ Scenario.msg1 :: q1 ++ Scenario.msg2 :: d)
    /\ (fst r = Ret tt ->
        k = List.length (queue_of w) /\ dispatches h = queue_of w
        /\ handled (_handle_message env) (queue_of w) w = Some (snd r))
    /\ (forall e, fst r = Raise e ->
        exists done m rest wd,
          queue_of w = done ++ m :: rest
          /\ k = S (List.length done)
          /\ handled (_handle_message env) done w = Some wd
          /\ _handle_message env m (at_dispatch m wd) = (Raise e, snd r))
    /\ (List.length (queue_of w) < 3 ->
        fst r <> Block
        /\ forall wd, handled (_handle_message env) (q0 ++ Scenario.msg1 :: q1) w = Some wd ->
                      List.length q0 + List.length q1 + 1 < k).
Proof.
  apply (@fifo_dispatch (Scenario.serving Scenario.hello_body)
           Scenario.questioner (enqueued Scenario.msg1 Scenario.questioner)
           (enqueued Scenario.msg2 (snd (deliver [] (enqueued Scenario.msg1 Scenario.questioner))))
           Scenario.msg1 Scenario.msg2 [] [] 3).
  - reflexivity.
  - reflexivity.
Defined.

(** The same run, evaluated: both handlers are called, [msg1] first. *)
Example fifo_two_messages :
  let r := process_messages (Scenario.serving Scenario.hello_body) 3
             Scenario.questioner_two in
  fst r = Ret tt
  /\ history (snd r) = [Dispatched Scenario.msg1; Returned Scenario.msg1 None;
                        Dispatched Scenario.msg2; Returned Scenario.msg2 None]
  /\ queue_of (snd r) = [].
Proof. vm_compute. repeat split. Qed.

(** ** Termination of the drain *)




(** The handler calls of that run all return: the run is the one the third
    part of the theorem speaks of. *)
Example questioner_two_handled :
  let env := Scenario.serving Scenario.hello_body in
  handled (_handle_message env) (queue_of Scenario.questioner_two) Scenario.questioner_two
  = Some (snd (process_messages env 3 Scenario.questioner_two))
  /\ queue_of Scenario.questioner_two = [Scenario.msg1; Scenario.msg2].
Proof. vm_compute. split; reflexivity. Qed.

(** On an empty mailbox the loop of any agent returns at once: no handler
    call, nothing printed, the world unchanged. *)
Lemma process_empty (env : Env) (fuel : nat) (w : World) :
  queue_of w = [] -> process_messages env (S fuel) w = (Ret tt, w).
Proof. apply loop_empty. Qed.

(** ** A handler that raises *)

(** C10. When, in a run of [process_messages], the handler returns on the
    messages [done] at the head of the mailbox and raises on the next one,
    [m]: [m] was in the mailbox, was removed before the call and is not put
    back; the messages behind it are still in the mailbox;
    [process_messages] raises the same exception in the world the handler
    left; and the handler calls of the run are those on [done] and on [m],
    the history ending with the call on [m] (no further handler call). *)
Theorem handler_failure_propagates (env : Env) (fuel : nat) (w wd w1 : World)
    (done rest : list Message) (m : Message) (e : exn) :
  queue_of w = done ++ m :: rest ->
  handled (_handle_message env) done w = Some wd ->
  _handle_message env m (at_dispatch m wd) = (Raise e, w1) ->
  List.length done < fuel ->
  process_messages env fuel w = (Raise e, w1)
  /\ queue_of wd = m :: rest
  /\ queue_of (at_dispatch m wd) = rest
  /\ queue_of w1 = rest
  /\ history w1 = history wd ++ [Dispatched m]
  /\ dispatches (history w1) = dispatches (history w) ++ done ++ [m].
Proof.
  intros Hq Hd He Hf.
  destruct (@loop_raises_after (_handle_message env) (handle_message_frame env)
              fuel w wd w1 done rest m e Hq Hd He Hf) as (Hrun & Qd).
  destruct (@handled_prefix (_handle_message env) (handle_message_frame env)
              done w wd (m :: rest) Hq Hd) as (_ & _ & Dd & _).
  destruct (at_dispatch_head _ Qd) as (Dq & Dh & _).
  destruct (handle_message_frame env m (at_dispatch m wd)) as (Fs & Fh & _).
  rewrite He in Fs, Fh. simpl in Fs, Fh.
  assert (history w1 = history wd ++ [Dispatched m]) as Hh by congruence.
  split; [exact Hrun|]. split; [exact Qd|]. split; [exact Dq|].
  split; [unfold queue_of; rewrite Fs; exact Dq|].
  split; [exact Hh|].
  rewrite Hh, dispatches_app, Dd, <- app_assoc. reflexivity.
Qed.

(** The question behind a note, with a backend that times out: the handler
    returns on the note and raises on the question. *)
Lemma handler_failure_propagates_witness :
  let env := Cases.timing_out in
  let w := Cases.note_then_question in
  let wd := snd (record (Returned Cases.note None) (at_dispatch Cases.note w)) in
  let w1 := snd (_handle_message env Scenario.question (at_dispatch Scenario.question wd)) in
  process_messages env 3 w = (Raise (HTTPError (lit "ReadTimeout")), w1)
  /\ queue_of wd = [Scenario.question]
  /\ queue_of (at_dispatch Scenario.question wd) = []
  /\ queue_of w1 = []
  /\ history w1 = history wd ++ [Dispatched Scenario.question]
  /\ dispatches (history w1) = dispatches (history w) ++ [Cases.note] ++ [Scenario.question].
Proof.
  apply (@handler_failure_propagates Cases.timing_out 3 Cases.note_then_question
           (snd (record (Returned Cases.note None)
                   (at_dispatch Cases.note Cases.note_then_question)))
           (snd (_handle_message Cases.timing_out Scenario.question
                   (at_dispatch Scenario.question
                      (snd (record (Returned Cases.note None)
                              (at_dispatch Cases.note Cases.note_then_question))))))
           [Cases.note] [] Scenario.question (HTTPError (lit "ReadTimeout"))).
  - reflexivity.
  - reflexivity.
  - reflexivity.
  - simpl. lia.
Defined.

(** ** Assembling the response *)

Lemma loads_empty (lim : Json.limits) : Json.loads lim [] = inl Json.Malformed.
Proof. reflexivity. Qed.

(** On lines that are records, the loop appends the fragments in order. *)
Lemma stream_loop_records (lim : Json.limits) (lines : list pystr) (acc : pystr) :
  Forall (record_line lim) lines ->
  stream_loop lim lines acc
  = inr (acc ++ concat (map (fun line => match spec_fragment lim line with
                                         | Some s => s
                                         | None => []
                                         end) lines)).
Proof.
  intro H. revert acc. induction H as [|line lines Hline _ IH]; intro acc;
    cbn [stream_loop map concat].
  - rewrite app_nil_r. reflexivity.
  - destruct Hline as [->|(pairs & Hload & Hfield)].
    + unfold spec_fragment. rewrite loads_empty. simpl. apply IH.
    + destruct line as [|c line]; [rewrite loads_empty in Hload; discriminate|].
      unfold spec_fragment. rewrite Hload. cbn [py_in_response py_get_response].
      destruct Hfield as [Hnone|[s Hsome]].
      * rewrite Hnone. simpl. apply IH.
      * rewrite Hsome. cbn [py_iadd_str]. rewrite IH, app_assoc. reflexivity.
Qed.

Lemma foreign_not_AgentError (e : exn) : foreign e -> is_AgentError e = false.
Proof. intros [->|[->|[->| ->]]]; reflexivity. Qed.

Lemma foreign_of_json (err : Json.error) : foreign (exn_of_json err).
Proof. destruct err; unfold foreign; simpl; auto. Qed.

(** The loop only ever fails with an exception of the JSON decoder or of the
    Python runtime, never with one of the module's own classes. *)
Lemma stream_loop_error_foreign (lim : Json.limits) (lines : list pystr) (acc : pystr)
    (e : exn) :
  stream_loop lim lines acc = inl e -> foreign e.
Proof.
  assert (foreign TypeError) as HT by (unfold foreign; auto).
  revert acc. induction lines as [|line lines IH]; intro acc; cbn [stream_loop].
  - discriminate.
  - destruct line as [|c line]; [apply IH|].
    destruct (Json.loads lim (c :: line)) as [err|data];
      [intro H; injection H as <-; apply foreign_of_json|].
    destruct (py_in_response data) as [e1|[|]] eqn:Ein.
    + destruct data; simpl in Ein; try discriminate; injection Ein as <-;
        intro H; injection H as <-; exact HT.
    + destruct (py_get_response data) as [e2|v] eqn:Eget.
      * destruct data as [| | | | |pairs]; simpl in Eget;
          try (injection Eget as <-; intro H; injection H as <-; exact HT).
        destruct (Json.dict_get (lit "response") pairs); try discriminate.
        injection Eget as <-; intro H; injection H as <-; exact HT.
      * destruct v; cbn [py_iadd_str]; try (intro H; injection H as <-; exact HT).
        apply IH.
    + apply IH.
Qed.

(** A non-empty line that [json.loads] rejects makes the loop fail. *)
Lemma stream_loop_malformed (lim : Json.limits) (lines : list pystr) (acc line : pystr)
    (err : Json.error) :
  In line lines -> line <> [] -> Json.loads lim line = inl err ->
  exists e, stream_loop lim lines acc = inl e.
Proof.
  intros Hin Hne Hload. revert acc.
  induction lines as [|l lines IH]; intro acc; [contradiction|].
  destruct (stream_loop lim (l :: lines) acc) as [e|s] eqn:E; [eauto|].
  exfalso. cbn [stream_loop] in E. destruct Hin as [->|Hin].
  - destruct line as [|c line]; [congruence|]. rewrite Hload in E. discriminate.
  - specialize (IH Hin).
    destruct l as [|c l].
    + destruct (IH acc) as [e He]. congruence.
    + destruct (Json.loads lim (c :: l)) as [err'|data]; [discriminate|].
      destruct (py_in_response data) as [e1|[|]]; [discriminate| |].
      * destruct (py_get_response data) as [e2|v]; [discriminate|].
        destruct (py_iadd_str acc v) as [e3|acc']; [discriminate|].
        destruct (IH acc') as [e He]. congruence.
      * destruct (IH acc) as [e He]. congruence.
Qed.

Lemma generate_question_run (env : Env) (topic : pystr) (w : World) (resp : Response) :
  http_post env (posts w) (question_request (self w) topic) = inr resp ->
  generate_question env topic w =
    match stream_loop (json_limits env (posts w)) (response_lines (text resp)) [] with
    | inr question => (Ret (Str.strip question), posted w)
    | inl e => (Raise e, posted w)
    end.
Proof.
  intro H. unfold question_request in H.
  unfold generate_question, bind, get_self, sent, post. rewrite H.
  destruct (stream_loop (json_limits env (posts w)) (response_lines (text resp)) []);
    reflexivity.
Qed.

Lemma generate_answer_run (env : Env) (question : pystr) (w : World) (resp : Response) :
  http_post env (posts w) (answer_request (self w) question) = inr resp ->
  generate_answer env question w =
    match stream_loop (json_limits env (posts w)) (response_lines (text resp)) [] with
    | inr answer => (Ret (Str.strip answer), posted w)
    | inl e => (Raise e, posted w)
    end.
Proof.
  intro H. unfold answer_request in H.
  unfold generate_answer, bind, get_self, sent, post. rewrite H.
  destruct (stream_loop (json_limits env (posts w)) (response_lines (text resp)) []);
    reflexivity.
Qed.



Lemma hello_lines :
  response_lines Scenario.hello_body
  = [qlit "{'response':'Hel','done':false}";
     qlit "{'model':'mistral','done':false}";
     qlit "{'response':'lo','done':true}"].
Proof. vm_compute. reflexivity. Qed.

Lemma hello_lines_are_records :
  Forall (record_line Json.default_limits) (response_lines Scenario.hello_body).
Proof.
  rewrite hello_lines.
  apply Forall_cons; [|apply Forall_cons; [|apply Forall_cons; [|apply Forall_nil]]];
    right; eexists; (split; [vm_compute; reflexivity|]).
  - right. eexists. vm_compute. reflexivity.
  - left. vm_compute. reflexivity.
  - right. eexists. vm_compute. reflexivity.
Qed.

Lemma hello_assembles :
  spec_assemble Json.default_limits Scenario.hello_body = lit "Hello".
Proof. vm_compute. reflexivity. Qed.


(** Concrete scenario 4, evaluated. *)
Example scenario_hello :
  fst (generate_question (Scenario.serving Scenario.hello_body)
         (lit "python programming") Scenario.questioner) = Ret (lit "Hello")
  /\ fst (generate_answer (Scenario.serving Scenario.hello_body)
            (lit "what is Python?") Scenario.questioner) = Ret (lit "Hello").
Proof. vm_compute. split; reflexivity. Qed.

(** ** A line that is not JSON *)

(** Whenever the response holds a non-empty line that [json.loads] rejects,
    the call fails, and the exception is the decoder's or the runtime's: it
    is not an [OllamaError] nor any other [AgentError]. *)
Lemma malformed_line_raises_foreign (env : Env) (w : World) (s line : pystr)
    (resp : Response) (err : Json.error) :
  In line (response_lines (text resp)) -> line <> [] ->
  Json.loads (json_limits env (posts w)) line = inl err ->
  (http_post env (posts w) (question_request (self w) s) = inr resp ->
   exists e, generate_question env s w = (Raise e, posted w) /\ is_AgentError e = false)
  /\ (http_post env (posts w) (answer_request (self w) s) = inr resp ->
      exists e, generate_answer env s w = (Raise e, posted w) /\ is_AgentError e = false).
Proof.
  intros Hin Hne Hload.
  destruct (@stream_loop_malformed (json_limits env (posts w)) _ [] line err Hin Hne Hload)
    as [e He].
  assert (is_AgentError e = false) as Hf.
  { apply foreign_not_AgentError. apply (@stream_loop_error_foreign _ _ _ e He). }
  split; intro Hpost; exists e; split; auto.
  - rewrite (generate_question_run _ _ _ Hpost), He. reflexivity.
  - rewrite (generate_answer_run _ _ _ Hpost), He. reflexivity.
Qed.

(** C6, on the code.  The backend answers with a body whose second line is
    not JSON: both generation methods raise [json.JSONDecodeError], which is
    not an [AgentError] (and so not an [OllamaError]). *)
Theorem malformed_line_escapes_taxonomy :
  let env := Scenario.serving Scenario.broken_body in
  generate_question env (lit "python programming") Scenario.questioner
  = (Raise JSONDecodeError, posted Scenario.questioner)
  /\ generate_answer env (lit "what is Python?") Scenario.answerer
     = (Raise JSONDecodeError, posted Scenario.answerer)
  /\ is_AgentError JSONDecodeError = false
  /\ (forall msg, JSONDecodeError <> OllamaError msg).
Proof.
  vm_compute. repeat split; discriminate.
Qed.

(** ** The reply of an [AnswerAgent] *)

(** C4, on the code.  An [AnswerAgent] "A" holds exactly one question from
    "Q" and the backend answers "Hello".  The handler builds the reply (type
    "answer", addressed to "Q", content "Hello") and returns it to
    [process_messages], which drops it: [process_messages] returns [None],
    the mailbox is empty, and the reply is left only in the record of the
    handler's return. *)
Theorem reply_is_dropped :
  let env := Scenario.serving Scenario.hello_body in
  let reply := {| sender_id := lit "A"; receiver_id := lit "Q";
                  content := lit "Hello"; message_type := lit "answer";
                  timestamp := isoformat (Scenario.noon 0) |} in
  let r := process_messages env 2 Scenario.answerer in
  queue_of Scenario.answerer = [Scenario.question]
  /\ fst (_handle_message env Scenario.question
            (at_dispatch Scenario.question Scenario.answerer)) = Ret (Some reply)
  /\ fst r = Ret tt
  /\ queue_of (snd r) = []
  /\ history (snd r) = [Dispatched Scenario.question;
                        Returned Scenario.question (Some reply)].
Proof. vm_compute. repeat split. Qed.

(** ** Building a message: [send_message] *)

(** The world after a call of [send_message] that printed [out]. *)
Lemma send_message_run (env : Env) (to body : pyval) (mt : option pyval) (w : World) :
  send_message env to body mt w =
    match to, body, match mt with Some t => t | None => PStr (lit "general") end with
    | PStr r, PStr c, PStr t =>
        if printable (encoder w) (sending (self w) r c) then
          (Ret {| sender_id := agent_id (self w); receiver_id := r; content := c;
                  message_type := t; timestamp := isoformat (clock env (ticks w)) |},
           {| self := self w;
              stdout := stdout w ++ [sending (self w) r c];
              encoder := encoder w;
              history := history w; ticks := S (ticks w); posts := posts w |})
        else
          (Raise (CommunicationError
                    (lit "Failed to send message: " ++ exn_str UnicodeEncodeError)),
           {| self := self w; stdout := stdout w; encoder := encoder w;
              history := history w; ticks := S (ticks w); posts := posts w |})
    | r, c, t =>
        (Raise (CommunicationError
                  (lit "Failed to send message: "
                   ++ exn_str (ValidationError
                                 (rejected "receiver_id" r ++ rejected "content" c
                                  ++ rejected "message_type" t)))),
         {| self := self w; stdout := stdout w; encoder := encoder w;
            history := history w; ticks := S (ticks w); posts := posts w |})
    end.
Proof.
  unfold send_message, Message_new, now, print, sending, catch, bind, get_self, ret.
  destruct to as [r|], body as [c|], mt as [[t|]|]; try reflexivity;
    cbn [format_val encoder self stdout history ticks posts];
    destruct (printable (encoder w) _); reflexivity.
Qed.

(** C5, as stated, fails: a call of [send_message] with an empty receiver
    identifier returns the message (whose [receiver_id] is empty), and so
    does a call by an agent whose own identifier is empty. *)
Lemma send_accepts_empty_identifiers :
  let env := Scenario.serving Scenario.hello_body in
  let nobody := boot utf8 (Agent_init BaseAgent [] None None) in
  fst (send_message env (PStr []) (PStr (lit "Hello")) None Scenario.agent1)
  = Ret {| sender_id := lit "agent1"; receiver_id := []; content := lit "Hello";
           message_type := lit "general"; timestamp := isoformat (Scenario.noon 0) |}
  /\ fst (send_message env (PStr (lit "agent2")) (PStr (lit "Hello")) None nobody)
     = Ret {| sender_id := []; receiver_id := lit "agent2"; content := lit "Hello";
              message_type := lit "general"; timestamp := isoformat (Scenario.noon 0) |}.
Proof. vm_compute. split; reflexivity. Qed.

(** C5, amended.  Message construction does not look at the length of its
    fields; of arguments that are a [str] or [None] it rejects [None] only.
    [send_message], called with such arguments, raises [CommunicationError]
    exactly when one of them is [None] or standard output cannot encode the
    line the method prints; it raises nothing else, prints nothing when it
    raises, and does not block; and for [str] arguments, empty ones
    included, whose line can be printed it returns the message built from
    them, having printed the line. *)
Theorem send_raises_communication_error (env : Env) (to body : pyval)
    (mt : option pyval) (w : World) :
  let r := send_message env to body mt w in
  ((exists msg, fst r = Raise (CommunicationError msg))
   <-> (to = PNone \/ body = PNone \/ mt = Some PNone
        \/ printable (encoder w)
             (sending (self w) (format_val to) (format_val body)) = false))
  /\ (forall e, fst r = Raise e ->
                (exists msg, e = CommunicationError msg) /\ stdout (snd r) = stdout w)
  /\ fst r <> Block
  /\ (forall s c t, to = PStr s -> body = PStr c ->
                    match mt with Some v => v | None => PStr (lit "general") end = PStr t ->
                    printable (encoder w) (sending (self w) s c) = true ->
                    r = (Ret {| sender_id := agent_id (self w); receiver_id := s;
                                content := c; message_type := t;
                                timestamp := isoformat (clock env (ticks w)) |},
                         {| self := self w;
                            stdout := stdout w ++ [sending (self w) s c];
                            encoder := encoder w;
                            history := history w; ticks := S (ticks w);
                            posts := posts w |})).
Proof.
  intro r. unfold r. clear r. rewrite send_message_run.
  split; [split|split; [|split]].
  - intros [msg H]. destruct to as [s|]; [|auto]. destruct body as [c|]; [|auto].
    destruct mt as [[t|]|]; auto; cbn [format_val];
      destruct (printable (encoder w) (sending (self w) s c)); auto; discriminate.
  - intros [->|[->|[->|Hp]]].
    + eexists; reflexivity.
    + destruct to; eexists; reflexivity.
    + destruct to, body; eexists; reflexivity.
    + destruct to as [s|], body as [c|], mt as [[t|]|]; cbn [format_val] in Hp;
        try rewrite Hp; eexists; reflexivity.
  - intros e H. destruct to as [s|], body as [c|], mt as [[t|]|];
      try destruct (printable (encoder w) (sending (self w) s c));
      simpl in H |- *; try discriminate;
      injection H as <-; (split; [eexists; reflexivity|reflexivity]).
  - destruct to as [s|], body as [c|], mt as [[t|]|];
      try destruct (printable (encoder w) (sending (self w) s c)); discriminate.
  - intros s c t -> -> Ht Hp. rewrite Ht, Hp. reflexivity.
Qed.

Lemma send_raises_communication_error_witness :
  let env := Scenario.serving Scenario.hello_body in
  (exists msg, fst (send_message env PNone (PStr (lit "Hello")) None Scenario.agent1)
               = Raise (CommunicationError msg))
  /\ send_message env (PStr []) (PStr (lit "Hello")) None Scenario.agent1
     = (Ret {| sender_id := lit "agent1"; receiver_id := []; content := lit "Hello";
               message_type := lit "general"; timestamp := isoformat (Scenario.noon 0) |},
        {| self := self Scenario.agent1;
           stdout := [sending (self Scenario.agent1) [] (lit "Hello")];
           encoder := utf8; history := []; ticks := 1; posts := 0 |}).
Proof.
  split.
  - apply (proj1 (@send_raises_communication_error (Scenario.serving Scenario.hello_body)
                    PNone (PStr (lit "Hello")) None Scenario.agent1)).
    left. reflexivity.
  - apply (proj2 (proj2 (proj2 (@send_raises_communication_error
                                  (Scenario.serving Scenario.hello_body)
                                  (PStr []) (PStr (lit "Hello")) None Scenario.agent1)))
             [] (lit "Hello") (lit "general")); reflexivity.
Defined.

(** A character that a console with the encoding of Latin-1 cannot print
    makes [send_message] fail, although every argument is a string. *)
Example send_fails_on_unprintable_text :
  let latin1 := fun c => (c <? 256)%N in
  let w := boot latin1 (Agent_init BaseAgent (lit "agent1") None None) in
  send_message (Scenario.serving Scenario.hello_body)
    (PStr (lit "agent2")) (PStr [8364%N]) None w
  = (Raise (CommunicationError (lit "Failed to send message: codec can't encode character")),
     {| self := self w; stdout := []; encoder := encoder w; history := [];
        ticks := 1; posts := 0 |}).
Proof. reflexivity. Qed.

(** A line of ASCII characters can be printed whatever the encoding. *)
Lemma printable_ascii (enc : N -> bool) (line : pystr) :
  forallb (fun c => negb (128 <=? c)%N) line = true -> printable enc line = true.
Proof.
  unfold printable. induction line as [|c line IH]; simpl; [reflexivity|].
  intro H. apply andb_true_iff in H as [Hc Hl]. rewrite Hc, (IH Hl). reflexivity.
Qed.

(** C8. An agent whose identifier is "agent1" sends "Hello" to "agent2" with
    type "general": the call returns a message with these four fields and a
    non-empty timestamp, the reading of the clock at construction.  With the
    type left out, in [send_message] or in [Message] itself, the type is
    "general". *)
Theorem send_builds_message (env : Env) (w : World) :
  agent_id (self w) = lit "agent1" ->
  (exists m, fst (send_message env (PStr (lit "agent2")) (PStr (lit "Hello"))
                    (Some (PStr (lit "general"))) w) = Ret m
             /\ sender_id m = lit "agent1"
             /\ receiver_id m = lit "agent2"
             /\ content m = lit "Hello"
             /\ message_type m = lit "general"
             /\ timestamp m = isoformat (clock env (ticks w))
             /\ timestamp m <> [])
  /\ (exists m, fst (send_message env (PStr (lit "agent2")) (PStr (lit "Hello")) None w)
                = Ret m
                /\ message_type m = lit "general")
  /\ (forall s r c, exists m,
        fst (Message_new env (PStr s) (PStr r) (PStr c) None w) = Ret m
        /\ message_type m = lit "general"
        /\ timestamp m <> []).
Proof.
  intro Hid.
  assert (printable (encoder w) (sending (self w) (lit "agent2") (lit "Hello")) = true)
    as Hp.
  { apply printable_ascii. unfold sending. rewrite Hid. reflexivity. }
  split; [|split].
  - rewrite send_message_run. cbv iota beta. rewrite Hp. eexists. simpl. rewrite Hid.
    repeat split. apply isoformat_nonempty.
  - rewrite send_message_run. cbv iota beta. rewrite Hp. eexists. simpl. repeat split.
  - intros s r c. eexists. simpl. repeat split. apply isoformat_nonempty.
Qed.

Lemma send_builds_message_witness :
  let env := Scenario.serving Scenario.hello_body in
  exists m, fst (send_message env (PStr (lit "agent2")) (PStr (lit "Hello"))
                   (Some (PStr (lit "general"))) Scenario.agent1) = Ret m
            /\ sender_id m = lit "agent1"
            /\ receiver_id m = lit "agent2"
            /\ content m = lit "Hello"
            /\ message_type m = lit "general"
            /\ timestamp m = isoformat (clock env (ticks Scenario.agent1))
            /\ timestamp m <> [].
Proof.
  apply (proj1 (@send_builds_message (Scenario.serving Scenario.hello_body)
                  Scenario.agent1 eq_refl)).
Defined.

(** * Further properties of the agents *)

(** ** The bound of the mailbox *)

(** X1. In every world an agent can reach, a mailbox with a positive bound
    holds at most that many messages. *)
Theorem mailbox_within_capacity (env : Env) (w : World) :
  reachable env w -> within_capacity w.
Proof.
  induction 1 as [enc c id mdl size|o w Hr IH].
  - intro Hpos. simpl in *. lia.
  - destruct o as [t b mt|m|fuel|topic|q]; simpl.
    + apply (@capacity_same_self w); [apply inert_send_message|exact IH].
    + apply capacity_received. exact IH.
    + destruct (@loop_spec (_handle_message env) (handle_message_frame env) fuel w)
        as (k & h & _ & _ & _ & Hq & Hk & _ & _).
      pose proof (@loop_self (_handle_message env) (handle_message_frame env) fuel w)
        as Hs.
      fold (process_messages env fuel w) in Hq, Hs.
      unfold within_capacity in *. rewrite Hs. simpl. intro Hpos.
      specialize (IH Hpos).
      unfold queue_of at 1. rewrite Hs. simpl. rewrite Hq, length_skipn. lia.
    + apply (@capacity_same_self w); [apply inert_generate_question|exact IH].
    + apply (@capacity_same_self w); [apply inert_generate_answer|exact IH].
Qed.

Lemma mailbox_within_capacity_witness :
  within_capacity (snd (receive_message Scenario.msg1 Scenario.test_agent)).
Proof.
  apply (@mailbox_within_capacity (Scenario.serving Scenario.hello_body)).
  apply (@reach_step _ (OpReceive Scenario.msg1) Scenario.test_agent).
  apply reach_init.
Defined.

(** A correctly addressed message offered to a mailbox that is not full is
    put into it; the call returns if the line can be printed and raises
    [UnicodeEncodeError] otherwise. *)
Lemma receive_room (m : Message) (w : World) :
  receiver_id m = agent_id (self w) ->
  Queue.full (message_queue (self w)) = false ->
  receive_message m w
  = (if printable (encoder w) (received_line m w)
     then (Ret tt, enqueued m w)
     else (Raise UnicodeEncodeError, queued m w)).
Proof.
  intros Hid Hfull.
  destruct (printable (encoder w) (received_line m w)) eqn:Hp.
  - apply receive_enqueues; assumption.
  - apply receive_unprintable; assumption.
Qed.

(** X2. A mailbox built with a bound of 0 or less is unbounded: whatever it
    already holds, a correctly addressed message is put into it, at the
    tail.  The call returns when standard output can print the line, and
    otherwise raises [UnicodeEncodeError] with the message in the mailbox;
    it never raises [QueueFullError]. *)
Theorem unbounded_mailbox_accepts (w : World) (m : Message) :
  (Queue.maxsize (message_queue (self w)) <= 0)%Z ->
  receiver_id m = agent_id (self w) ->
  receive_message m w
  = (if printable (encoder w) (received_line m w)
     then (Ret tt, enqueued m w)
     else (Raise UnicodeEncodeError, queued m w))
  /\ queue_of (snd (receive_message m w)) = queue_of w ++ [m]
  /\ (Queue.maxsize (message_queue (self (snd (receive_message m w)))) <= 0)%Z
  /\ (forall msg, fst (receive_message m w) <> Raise (QueueFullError msg)).
Proof.
  intros Hmax Hid.
  assert (Queue.full (message_queue (self w)) = false) as Hfull.
  { unfold Queue.full. apply andb_false_iff. left. apply Z.ltb_ge. exact Hmax. }
  rewrite (receive_room m w Hid Hfull).
  split; [reflexivity|].
  destruct (printable (encoder w) (received_line m w)); simpl;
    (split; [reflexivity|split; [exact Hmax|discriminate]]).
Qed.

Lemma unbounded_mailbox_accepts_witness :
  let w := snd (deliver [Scenario.msg1; Scenario.msg1; Scenario.msg1]
                  (boot utf8 (Agent_init BaseAgent (lit "test_agent") None (Some 0%Z)))) in
  receive_message Scenario.msg2 w
  = (if printable (encoder w) (received_line Scenario.msg2 w)
     then (Ret tt, enqueued Scenario.msg2 w)
     else (Raise UnicodeEncodeError, queued Scenario.msg2 w))
  /\ queue_of (snd (receive_message Scenario.msg2 w)) = queue_of w ++ [Scenario.msg2]
  /\ (Queue.maxsize (message_queue (self (snd (receive_message Scenario.msg2 w)))) <= 0)%Z
  /\ (forall msg, fst (receive_message Scenario.msg2 w) <> Raise (QueueFullError msg)).
Proof.
  apply unbounded_mailbox_accepts.
  - vm_compute. discriminate.
  - reflexivity.
Defined.

(** X3. Backpressure refuses the newest messages and keeps the oldest: when
    correctly addressed messages are offered one after the other to a
    mailbox with a positive bound, the mailbox ends up with what it held
    plus the first messages that fit, in order.  The calls that return are
    at most as many as the messages that fit, and exactly as many when
    standard output can print the line of each message offered. *)
Theorem deliver_keeps_oldest (w : World) (ms : list Message) :
  (0 < Queue.maxsize (message_queue (self w)))%Z ->
  (List.length (queue_of w) <= Z.to_nat (Queue.maxsize (message_queue (self w))))%nat ->
  Forall (fun m => receiver_id m = agent_id (self w)) ms ->
  let room := (Z.to_nat (Queue.maxsize (message_queue (self w)))
               - List.length (queue_of w))%nat in
  queue_of (snd (deliver ms w)) = queue_of w ++ firstn room ms
  /\ fst (deliver ms w) <= Nat.min (List.length ms) room
  /\ (Forall (fun m => printable (encoder w) (received_line m w) = true) ms ->
      fst (deliver ms w) = Nat.min (List.length ms) room).
Proof.
  intros Hpos Hlen Hall. revert w Hpos Hlen Hall.
  induction ms as [|m ms IH]; intros w Hpos Hlen Hall room.
  - simpl. rewrite firstn_nil, app_nil_r. auto.
  - inversion Hall as [|? ? Hm Hms]; subst.
    destruct (Queue.full (message_queue (self w))) eqn:Hfull.
    + simpl. rewrite (receive_full m w Hm Hfull).
      unfold Queue.full, Queue.qsize in Hfull. fold (queue_of w) in Hfull.
      apply andb_true_iff in Hfull as [_ H]. apply Z.leb_le in H.
      assert (room = 0) as Hroom by (unfold room; lia).
      destruct (IH w Hpos Hlen Hms) as (IHq & IHle & IHn). fold room in IHq, IHle, IHn.
      rewrite Hroom in *. rewrite IHq. simpl.
      rewrite Nat.min_0_r in *. split; [reflexivity|]. split; [exact IHle|].
      intro Hp. apply IHn. apply Forall_cons_iff in Hp as [_ Hp]. exact Hp.
    + pose proof (receive_room m w Hm Hfull) as Hrun.
      unfold Queue.full, Queue.qsize in Hfull. fold (queue_of w) in Hfull.
      apply andb_false_iff in Hfull as [H|H];
        [apply Z.ltb_ge in H; lia|apply Z.leb_gt in H].
      assert (exists room', room = S room') as [room' Hroom]
        by (exists (room - 1); unfold room; lia).
      assert (forall w1,
                self w1 = self (queued m w) -> encoder w1 = encoder w ->
                queue_of (snd (deliver ms w1)) = queue_of w ++ firstn room (m :: ms)
                /\ fst (deliver ms w1) <= Nat.min (List.length ms) room'
                /\ (Forall (fun m => printable (encoder w) (received_line m w) = true) ms ->
                    fst (deliver ms w1) = Nat.min (List.length ms) room')) as Hnext.
      { intros w1 Hs He.
        assert (queue_of w1 = queue_of w ++ [m]) as Hq1
          by (unfold queue_of at 1; rewrite Hs; reflexivity).
        assert (Queue.maxsize (message_queue (self w1))
                = Queue.maxsize (message_queue (self w))) as Hmx
          by (rewrite Hs; reflexivity).
        assert (agent_id (self w1) = agent_id (self w)) as Hid1
          by (rewrite Hs; reflexivity).
        assert (List.length (queue_of w1) = S (List.length (queue_of w))) as Hl
          by (rewrite Hq1, length_app; simpl; lia).
        destruct (IH w1) as (IHq & IHle & IHn).
        - rewrite Hmx. exact Hpos.
        - rewrite Hmx, Hl. lia.
        - rewrite Hid1. exact Hms.
        - rewrite Hmx, Hl in IHq, IHle, IHn.
          replace (Z.to_nat (Queue.maxsize (message_queue (self w)))
                   - S (List.length (queue_of w))) with room' in IHq, IHle, IHn
            by (unfold room in Hroom; lia).
          rewrite IHq, Hq1, Hroom, <- app_assoc. simpl.
          split; [reflexivity|]. split; [exact IHle|].
          intro Hp. apply IHn.
          unfold received_line in *. rewrite He, Hid1. exact Hp. }
      cbn [deliver]. rewrite Hrun.
      destruct (printable (encoder w) (received_line m w)) eqn:Hp.
      * destruct (Hnext (enqueued m w) eq_refl eq_refl) as (Hq & Hle & Hn).
        destruct (deliver ms (enqueued m w)) as [n w2]. simpl in *.
        rewrite Hroom. split; [rewrite Hq, Hroom; reflexivity|].
        split; [lia|].
        intro HP. apply Forall_cons_iff in HP as [_ HP]. rewrite (Hn HP). reflexivity.
      * destruct (Hnext (queued m w) eq_refl eq_refl) as (Hq & Hle & Hn).
        rewrite Hroom. split; [rewrite Hq, Hroom; reflexivity|].
        split; [cbn [List.length snd fst]; lia|].
        intro HP. apply Forall_cons_iff in HP as [HP _]. congruence.
Qed.

Lemma deliver_keeps_oldest_witness :
  let w := Scenario.test_agent in
  let ms := [Scenario.msg1; Scenario.msg2; Scenario.msg1] in
  queue_of (snd (deliver ms w)) = queue_of w ++ firstn 1 ms
  /\ fst (deliver ms w) <= Nat.min 3 1
  /\ (Forall (fun m => printable (encoder w) (received_line m w) = true) ms ->
      fst (deliver ms w) = Nat.min 3 1).
Proof.
  apply (@deliver_keeps_oldest Scenario.test_agent
           [Scenario.msg1; Scenario.msg2; Scenario.msg1]).
  - vm_compute. reflexivity.
  - vm_compute. lia.
  - repeat constructor.
Defined.

(** ** Draining with a handler that only prints *)

Section PrintingHandler.

(** A handler that, on the messages satisfying [P], for an agent of class
    [c] and a standard output of encoding [enc], prints the lines [out m]
    and returns [res m], doing nothing else. *)
Variable handle : Message -> M (option Message).
Variable c : AgentClass.
Variable enc : N -> bool.
Variable P : Message -> Prop.
Variable res : Message -> option Message.
Variable out : Message -> list pystr.

Hypothesis handle_prints :
  forall m v, cls (self v) = c -> encoder v = enc -> P m ->
              handle m v = (Ret (res m), printed (out m) v).

Lemma printing_loop (fuel : nat) (w : World) :
  cls (self w) = c ->
  encoder w = enc ->
  Forall P (queue_of w) ->
  List.length (queue_of w) < fuel ->
  process_messages_with handle fuel w
  = (Ret tt,
     {| self := with_items (self w) [];
        stdout := stdout w ++ concat (map out (queue_of w));
        encoder := encoder w;
        history := history w
                   ++ flat_map (fun m => [Dispatched m; Returned m (res m)]) (queue_of w);
        ticks := ticks w; posts := posts w |}).
Proof.
  revert w. induction fuel as [|fuel IH]; intros w Hc He HP Hf; [lia|].
  destruct (queue_of w) as [|m rest] eqn:Q.
  - rewrite (loop_empty _ _ _ Q).
    destruct w as [[k i md [mx it] b t] o en h tk p].
    unfold queue_of in Q. simpl in Q. subst it.
    simpl. rewrite !app_nil_r. reflexivity.
  - rewrite (loop_cons _ _ _ Q), (at_dispatch_world _ Q).
    apply Forall_cons_iff in HP as [Hm Hrest].
    rewrite handle_prints; [|exact Hc|exact He|exact Hm].
    simpl in Hf.
    rewrite IH; [|exact Hc|exact He|exact Hrest|unfold queue_of; simpl; lia].
    simpl. unfold queue_of. simpl.
    rewrite <- !app_assoc. reflexivity.
Qed.

End PrintingHandler.

Lemma question_handler_prints (env : Env) (enc : N -> bool) (m : Message) (v : World) :
  cls (self v) = QuestionAgent ->
  encoder v = enc ->
  printable enc (answer_line m) = true ->
  _handle_message env m v = (Ret None, printed [answer_line m] v).
Proof.
  intros Hc He Hp. unfold _handle_message, bind, get_self. rewrite Hc.
  unfold QuestionAgent_handle_message, bind. fold (answer_line m).
  rewrite print_ok; [reflexivity|rewrite He; exact Hp].
Qed.

Lemma concat_singletons {A B} (f : A -> B) (l : list A) :
  concat (map (fun x => [f x]) l) = map f l.
Proof. induction l as [|x l IH]; simpl; congruence. Qed.

Lemma concat_empties {A B} (l : list A) :
  concat (map (fun _ : A => @nil B) l) = [].
Proof. induction l as [|x l IH]; simpl; auto. Qed.

(** X4. [process_messages] of a [QuestionAgent] whose standard output can
    print the line of each message in the mailbox: it returns, having
    printed one line per message, in mailbox order, and emptied the
    mailbox, and it neither reads the clock nor calls the backend, whatever
    the types of the messages. *)
Theorem questioner_drain (env : Env) (fuel : nat) (w : World) :
  cls (self w) = QuestionAgent ->
  Forall (fun m => printable (encoder w) (answer_line m) = true) (queue_of w) ->
  List.length (queue_of w) < fuel ->
  process_messages env fuel w
  = (Ret tt,
     {| self := with_items (self w) [];
        stdout := stdout w ++ map answer_line (queue_of w);
        encoder := encoder w;
        history := history w
                   ++ flat_map (fun m => [Dispatched m; Returned m None]) (queue_of w);
        ticks := ticks w; posts := posts w |}).
Proof.
  intros Hc Hp Hf. unfold process_messages.
  rewrite (@printing_loop (_handle_message env) QuestionAgent (encoder w)
             (fun m => printable (encoder w) (answer_line m) = true)
             (fun _ => None) (fun m => [answer_line m])
             (@question_handler_prints env (encoder w)) fuel w Hc eq_refl Hp Hf).
  rewrite concat_singletons. reflexivity.
Qed.

Lemma questioner_drain_witness :
  process_messages (Scenario.serving Scenario.broken_body) 3 Scenario.questioner_two
  = (Ret tt,
     {| self := with_items (self Scenario.questioner_two) [];
        stdout := stdout Scenario.questioner_two
                  ++ map answer_line (queue_of Scenario.questioner_two);
        encoder := encoder Scenario.questioner_two;
        history := history Scenario.questioner_two
                   ++ flat_map (fun m => [Dispatched m; Returned m None])
                        (queue_of Scenario.questioner_two);
        ticks := ticks Scenario.questioner_two;
        posts := posts Scenario.questioner_two |}).
Proof.
  apply (@questioner_drain (Scenario.serving Scenario.broken_body) 3
           Scenario.questioner_two).
  - reflexivity.
  - repeat constructor.
  - vm_compute. lia.
Defined.

(** When standard output cannot print the line of a message, the handler of
    a [QuestionAgent] raises and the drain stops there. *)
Example questioner_drain_stops_at_unprintable :
  let latin1 := fun c => (c <? 256)%N in
  let euro := {| sender_id := lit "A"; receiver_id := lit "Q"; content := [8364%N];
                 message_type := lit "answer"; timestamp := [] |} in
  let w := {| self := with_items (Agent_init QuestionAgent (lit "Q") None None)
                        [euro; euro];
              stdout := []; encoder := latin1; history := []; ticks := 0; posts := 0 |} in
  let r := process_messages (Scenario.serving Scenario.hello_body) 3 w in
  fst r = Raise UnicodeEncodeError
  /\ queue_of (snd r) = [euro]
  /\ stdout (snd r) = [].
Proof. vm_compute. repeat split. Qed.

Lemma answerer_ignores (env : Env) (enc : N -> bool) (m : Message) (v : World) :
  cls (self v) = AnswerAgent ->
  encoder v = enc ->
  message_type m <> lit "question" ->
  _handle_message env m v = (Ret None, printed [] v).
Proof.
  intros Hc _ Ht. unfold _handle_message, bind, get_self. rewrite Hc.
  unfold AnswerAgent_handle_message. rewrite (str_eqb_neq Ht).
  unfold ret, printed. rewrite app_nil_r. destruct v; reflexivity.
Qed.

(** X5. An [AnswerAgent] ignores every message whose type is not "question":
    draining a mailbox of such messages returns normally and empties the
    mailbox without printing, reading the clock, calling the backend or
    building a reply. *)
Theorem answerer_ignores_other_types (env : Env) (fuel : nat) (w : World) :
  cls (self w) = AnswerAgent ->
  Forall (fun m => message_type m <> lit "question") (queue_of w) ->
  List.length (queue_of w) < fuel ->
  process_messages env fuel w
  = (Ret tt,
     {| self := with_items (self w) [];
        stdout := stdout w;
        encoder := encoder w;
        history := history w
                   ++ flat_map (fun m => [Dispatched m; Returned m None]) (queue_of w);
        ticks := ticks w; posts := posts w |}).
Proof.
  intros Hc Ht Hf. unfold process_messages.
  rewrite (@printing_loop (_handle_message env) AnswerAgent (encoder w)
             (fun m => message_type m <> lit "question")
             (fun _ => None) (fun _ => [])
             (@answerer_ignores env (encoder w)) fuel w Hc eq_refl Ht Hf).
  rewrite concat_empties, app_nil_r. reflexivity.
Qed.

Lemma answerer_ignores_other_types_witness :
  let w := snd (deliver [Scenario.msg1; Scenario.msg2]
                  (boot utf8 (Agent_init AnswerAgent (lit "test_agent") None None))) in
  process_messages (Scenario.serving Scenario.broken_body) 3 w
  = (Ret tt,
     {| self := with_items (self w) [];
        stdout := stdout w;
        encoder := encoder w;
        history := history w
                   ++ flat_map (fun m => [Dispatched m; Returned m None]) (queue_of w);
        ticks := ticks w; posts := posts w |}).
Proof.
  apply answerer_ignores_other_types.
  - reflexivity.
  - repeat constructor; vm_compute; discriminate.
  - vm_compute. lia.
Defined.

(** ** After a run of the loop *)

Lemma empty_never_full (a : Agent) :
  Queue.items (message_queue a) = [] -> Queue.full (message_queue a) = false.
Proof.
  intro H. unfold Queue.full, Queue.qsize. rewrite H. simpl.
  destruct (0 <? Queue.maxsize (message_queue a))%Z eqn:E; [|reflexivity].
  apply Z.ltb_lt in E. simpl. apply Z.leb_gt. exact E.
Qed.

(** X6. After a run of [process_messages] that returned, the mailbox is
    empty: a second run returns at once and changes nothing, and the next
    correctly addressed message is put into the mailbox, whatever the bound
    (the call returns if its line can be printed and raises
    [UnicodeEncodeError] otherwise). *)
Theorem drained_mailbox_is_ready (env : Env) (fuel fuel' : nat) (w : World)
    (m : Message) :
  fst (process_messages env fuel w) = Ret tt ->
  receiver_id m = agent_id (self w) ->
  let w' := snd (process_messages env fuel w) in
  queue_of w' = []
  /\ process_messages env (S fuel') w' = (Ret tt, w')
  /\ receive_message m w'
     = (if printable (encoder w') (received_line m w')
        then (Ret tt, enqueued m w')
        else (Raise UnicodeEncodeError, queued m w'))
  /\ queue_of (snd (receive_message m w')) = [m].
Proof.
  intros Hret Hid w'.
  destruct (@loop_spec (_handle_message env) (handle_message_frame env) fuel w)
    as (k & h & _ & _ & _ & Hq & _ & Hsame & Ho).
  fold (process_messages env fuel w) in Hq, Hsame, Ho. fold w' in Hq, Hsame.
  rewrite Hret in Ho. subst k. rewrite skipn_all in Hq.
  split; [exact Hq|]. split; [apply process_empty; exact Hq|].
  assert (receive_message m w'
          = (if printable (encoder w') (received_line m w')
             then (Ret tt, enqueued m w')
             else (Raise UnicodeEncodeError, queued m w'))) as Hrun.
  { apply receive_room; [congruence|]. apply empty_never_full. exact Hq. }
  split; [exact Hrun|]. rewrite Hrun.
  destruct (printable (encoder w') (received_line m w')); simpl;
    [change (queue_of (enqueued m w')) with (queue_of w' ++ [m])
    |change (queue_of (queued m w')) with (queue_of w' ++ [m])];
    rewrite Hq; reflexivity.
Qed.

Lemma drained_mailbox_is_ready_witness :
  let env := Scenario.serving Scenario.hello_body in
  let w' := snd (process_messages env 3 Scenario.questioner_two) in
  queue_of w' = []
  /\ process_messages env 1 w' = (Ret tt, w')
  /\ receive_message Scenario.msg1 w'
     = (if printable (encoder w') (received_line Scenario.msg1 w')
        then (Ret tt, enqueued Scenario.msg1 w')
        else (Raise UnicodeEncodeError, queued Scenario.msg1 w'))
  /\ queue_of (snd (receive_message Scenario.msg1 w')) = [Scenario.msg1].
Proof.
  apply (@drained_mailbox_is_ready (Scenario.serving Scenario.hello_body) 3 0
           Scenario.questioner_two Scenario.msg1).
  - vm_compute. reflexivity.
  - reflexivity.
Defined.

(** X7. A run of [process_messages] that ends with an exception has still
    removed at least one message: if the mailbox respected its bound before
    the run, the next correctly addressed message is put into the mailbox
    (the call returns if its line can be printed and raises
    [UnicodeEncodeError] otherwise). *)
Theorem failed_drain_frees_a_slot (env : Env) (fuel : nat) (w : World)
    (m : Message) (e : exn) :
  fst (process_messages env fuel w) = Raise e ->
  within_capacity w ->
  receiver_id m = agent_id (self w) ->
  let w' := snd (process_messages env fuel w) in
  List.length (queue_of w') < List.length (queue_of w)
  /\ receive_message m w'
     = (if printable (encoder w') (received_line m w')
        then (Ret tt, enqueued m w')
        else (Raise UnicodeEncodeError, queued m w'))
  /\ queue_of (snd (receive_message m w')) = queue_of w' ++ [m].
Proof.
  intros Hraise Hcap Hid w'.
  destruct (@loop_spec (_handle_message env) (handle_message_frame env) fuel w)
    as (k & h & _ & _ & _ & Hq & Hk & Hsame & Ho).
  pose proof (@loop_self (_handle_message env) (handle_message_frame env) fuel w) as Hs.
  fold (process_messages env fuel w) in Hq, Hsame, Ho, Hs. fold w' in Hq, Hsame, Hs.
  rewrite Hraise in Ho.
  assert (List.length (queue_of w') < List.length (queue_of w)) as Hlt
    by (rewrite Hq, length_skipn; lia).
  split; [exact Hlt|].
  assert (receive_message m w'
          = (if printable (encoder w') (received_line m w')
             then (Ret tt, enqueued m w')
             else (Raise UnicodeEncodeError, queued m w'))) as Hrun.
  { apply receive_room; [congruence|].
    unfold Queue.full, Queue.qsize. fold (queue_of w').
    rewrite Hs. simpl.
    destruct (0 <? Queue.maxsize (message_queue (self w)))%Z eqn:E; [|reflexivity].
    apply Z.ltb_lt in E. specialize (Hcap E). simpl. apply Z.leb_gt. lia. }
  split; [exact Hrun|]. rewrite Hrun.
  destruct (printable (encoder w') (received_line m w')); reflexivity.
Qed.

Lemma failed_drain_frees_a_slot_witness :
  let env := Scenario.serving Scenario.hello_body in
  let w := snd (deliver [Scenario.msg1] Scenario.test_agent) in
  let w' := snd (process_messages env 2 w) in
  List.length (queue_of w') < List.length (queue_of w)
  /\ receive_message Scenario.msg2 w'
     = (if printable (encoder w') (received_line Scenario.msg2 w')
        then (Ret tt, enqueued Scenario.msg2 w')
        else (Raise UnicodeEncodeError, queued Scenario.msg2 w'))
  /\ queue_of (snd (receive_message Scenario.msg2 w')) = queue_of w' ++ [Scenario.msg2].
Proof.
  apply (@failed_drain_frees_a_slot (Scenario.serving Scenario.hello_body) 2
           (snd (deliver [Scenario.msg1] Scenario.test_agent)) Scenario.msg2
           NotImplementedError).
  - vm_compute. reflexivity.
  - intro H. vm_compute. discriminate.
  - reflexivity.
Defined.

(** ** The handler of an [AnswerAgent] *)

Lemma handle_message_class (env : Env) (m : Message) (w : World) :
  _handle_message env m w
  = match cls (self w) with
    | BaseAgent => BaseAgent_handle_message m w
    | QuestionAgent => QuestionAgent_handle_message m w
    | AnswerAgent => AnswerAgent_handle_message env m w
    end.
Proof.
  unfold _handle_message, bind, get_self. destruct (cls (self w)); reflexivity.
Qed.

Lemma answer_handler_run (env : Env) (w : World) (m : Message) (resp : Response) :
  cls (self w) = AnswerAgent ->
  message_type m = lit "question" ->
  http_post env (posts w) (answer_request (self w) (content m)) = inr resp ->
  Forall (record_line (json_limits env (posts w))) (response_lines (text resp)) ->
  _handle_message env m w
  = (if printable (encoder w)
          (sending (self w) (sender_id m)
             (spec_assemble (json_limits env (posts w)) (text resp)))
     then
       (Ret (Some {| sender_id := agent_id (self w);
                     receiver_id := sender_id m;
                     content := spec_assemble (json_limits env (posts w)) (text resp);
                     message_type := lit "answer";
                     timestamp := isoformat (clock env (ticks w)) |}),
        {| self := self w;
           stdout := stdout w
                     ++ [sending (self w) (sender_id m)
                           (spec_assemble (json_limits env (posts w)) (text resp))];
           encoder := encoder w;
           history := history w;
           ticks := S (ticks w);
           posts := S (posts w) |})
     else
       (Raise (CommunicationError
                 (lit "Failed to send message: " ++ exn_str UnicodeEncodeError)),
        {| self := self w; stdout := stdout w; encoder := encoder w;
           history := history w; ticks := S (ticks w); posts := S (posts w) |})).
Proof.
  intros Hc Ht Hpost Hlines.
  rewrite handle_message_class, Hc.
  unfold AnswerAgent_handle_message. rewrite Ht, str_eqb_refl.
  unfold bind at 1.
  rewrite (generate_answer_run _ _ _ Hpost), (stream_loop_records [] Hlines).
  unfold bind. rewrite send_message_run.
  cbn [app posted self stdout encoder history ticks posts].
  fold (spec_assemble (json_limits env (posts w)) (text resp)).
  destruct (printable (encoder w) _); reflexivity.
Qed.

(** X8. On a "question", when the backend answers with records, the handler
    of an [AnswerAgent] sends one request, reads the clock once and leaves
    the agent as it is.  If standard output can print the line of the reply,
    the handler prints it and returns the reply: from the agent, to the
    sender of the question, of type "answer", carrying the assembled answer
    and the clock reading as timestamp.  If not, it prints nothing and
    raises the [CommunicationError] of [send_message]. *)
Theorem answerer_replies (env : Env) (w : World) (m : Message) (resp : Response) :
  cls (self w) = AnswerAgent ->
  message_type m = lit "question" ->
  http_post env (posts w) (answer_request (self w) (content m)) = inr resp ->
  Forall (record_line (json_limits env (posts w))) (response_lines (text resp)) ->
  _handle_message env m w
  = (if printable (encoder w)
          (sending (self w) (sender_id m)
             (spec_assemble (json_limits env (posts w)) (text resp)))
     then
       (Ret (Some {| sender_id := agent_id (self w);
                     receiver_id := sender_id m;
                     content := spec_assemble (json_limits env (posts w)) (text resp);
                     message_type := lit "answer";
                     timestamp := isoformat (clock env (ticks w)) |}),
        {| self := self w;
           stdout := stdout w
                     ++ [sending (self w) (sender_id m)
                           (spec_assemble (json_limits env (posts w)) (text resp))];
           encoder := encoder w;
           history := history w;
           ticks := S (ticks w);
           posts := S (posts w) |})
     else
       (Raise (CommunicationError
                 (lit "Failed to send message: " ++ exn_str UnicodeEncodeError)),
        {| self := self w; stdout := stdout w; encoder := encoder w;
           history := history w; ticks := S (ticks w); posts := S (posts w) |})).
Proof. apply answer_handler_run. Qed.

Lemma answerer_replies_witness :
  let env := Scenario.serving Scenario.hello_body in
  let w := at_dispatch Scenario.question Scenario.answerer in
  _handle_message env Scenario.question w
  = (Ret (Some {| sender_id := lit "A"; receiver_id := lit "Q";
                  content := lit "Hello"; message_type := lit "answer";
                  timestamp := isoformat (Scenario.noon 0) |}),
     {| self := self w;
        stdout := stdout w ++ [lit "Agent A sending message to Q: Hello"];
        encoder := encoder w;
        history := history w;
        ticks := S (ticks w);
        posts := S (posts w) |}).
Proof.
  pose proof (@answerer_replies (Scenario.serving Scenario.hello_body)
                (at_dispatch Scenario.question Scenario.answerer) Scenario.question
                {| status_code := 200; text := Scenario.hello_body |}
                eq_refl eq_refl eq_refl hello_lines_are_records) as H.
  cbv [text] in H.
  change (json_limits (Scenario.serving Scenario.hello_body)
            (posts (at_dispatch Scenario.question Scenario.answerer)))
    with Json.default_limits in H.
  rewrite hello_assembles in H. exact H.
Defined.

(** X9. When the request of an [AnswerAgent] for a question fails in the
    HTTP client, wherever the question stands in the mailbox: the exception
    leaves [process_messages] as it is (it is not turned into an
    [AgentError]); the question was taken from the mailbox and is lost, the
    messages behind it stay, nothing is printed for it and no reply is
    built. *)
Theorem backend_failure_loses_question (env : Env) (fuel : nat) (w wd : World)
    (done rest : list Message) (m : Message) (kind : pystr) :
  cls (self w) = AnswerAgent ->
  queue_of w = done ++ m :: rest ->
  handled (_handle_message env) done w = Some wd ->
  message_type m = lit "question" ->
  http_post env (posts wd) (answer_request (self w) (content m)) = inl kind ->
  List.length done < fuel ->
  process_messages env fuel w
  = (Raise (HTTPError kind),
     {| self := with_items (self w) rest;
        stdout := stdout wd;
        encoder := encoder wd;
        history := history wd ++ [Dispatched m];
        ticks := ticks wd;
        posts := S (posts wd) |})
  /\ is_AgentError (HTTPError kind) = false
  /\ dispatches (history wd ++ [Dispatched m]) = dispatches (history w) ++ done ++ [m].
Proof.
  intros Hc Hq Hd Ht Hpost Hf.
  destruct (@handled_prefix (_handle_message env) (handle_message_frame env)
              done w wd (m :: rest) Hq Hd) as (Qd & Sd & Dd & _).
  assert (_handle_message env m (at_dispatch m wd)
          = (Raise (HTTPError kind),
             {| self := with_items (self w) rest;
                stdout := stdout wd;
                encoder := encoder wd;
                history := history wd ++ [Dispatched m];
                ticks := ticks wd;
                posts := S (posts wd) |})) as Hm.
  { rewrite (at_dispatch_world _ Qd), Sd.
    rewrite handle_message_class. cbn [self].
    change (cls (with_items (with_items (self w) (m :: rest)) rest)) with (cls (self w)).
    rewrite Hc.
    unfold AnswerAgent_handle_message. rewrite Ht, str_eqb_refl.
    unfold bind at 1. unfold generate_answer, bind, get_self, sent, post.
    cbn [fst snd self stdout encoder history ticks posts].
    unfold answer_request in Hpost.
    change (base_url (with_items (with_items (self w) (m :: rest)) rest))
      with (base_url (self w)).
    change (model (with_items (with_items (self w) (m :: rest)) rest))
      with (model (self w)).
    change (timeout (with_items (with_items (self w) (m :: rest)) rest))
      with (timeout (self w)).
    rewrite Hpost. reflexivity. }
  destruct (@loop_raises_after (_handle_message env) (handle_message_frame env)
              fuel w wd _ done rest m (HTTPError kind) Hq Hd Hm Hf) as (Hrun & _).
  split; [exact Hrun|]. split; [reflexivity|].
  rewrite dispatches_app, Dd, <- app_assoc. reflexivity.
Qed.

Lemma backend_failure_loses_question_witness :
  let env := Cases.timing_out in
  let w := Cases.note_then_question in
  let wd := snd (record (Returned Cases.note None) (at_dispatch Cases.note w)) in
  process_messages env 3 w
  = (Raise (HTTPError (lit "ReadTimeout")),
     {| self := with_items (self w) [];
        stdout := stdout wd;
        encoder := encoder wd;
        history := history wd ++ [Dispatched Scenario.question];
        ticks := ticks wd;
        posts := S (posts wd) |})
  /\ is_AgentError (HTTPError (lit "ReadTimeout")) = false
  /\ dispatches (history wd ++ [Dispatched Scenario.question])
     = dispatches (history w) ++ [Cases.note] ++ [Scenario.question].
Proof.
  apply (@backend_failure_loses_question Cases.timing_out 3 Cases.note_then_question
           (snd (record (Returned Cases.note None)
                   (at_dispatch Cases.note Cases.note_then_question)))
           [Cases.note] [] Scenario.question (lit "ReadTimeout")).
  - reflexivity.
  - reflexivity.
  - reflexivity.
  - reflexivity.
  - reflexivity.
  - simpl. lia.
Defined.

(** ** Edge cases of the response *)

Lemma stream_loop_app (lim : Json.limits) (l1 l2 : list pystr) (acc : pystr) :
  stream_loop lim (l1 ++ l2) acc
  = match stream_loop lim l1 acc with
    | inr acc' => stream_loop lim l2 acc'
    | inl e => inl e
    end.
Proof.
  revert acc. induction l1 as [|line l1 IH]; intro acc; cbn [stream_loop app];
    [reflexivity|].
  destruct line as [|c line]; [apply IH|].
  destruct (Json.loads lim (c :: line)) as [err|data]; [reflexivity|].
  destruct (py_in_response data) as [e|[|]]; [reflexivity| |apply IH].
  destruct (py_get_response data) as [e|v]; [reflexivity|].
  destruct (py_iadd_str acc v) as [e|acc']; [reflexivity|apply IH].
Qed.

Lemma carries_nothing_not_in (data : Json.value) :
  carries_nothing data -> py_in_response data = inr false.
Proof.
  destruct data as [| | |s|items|pairs]; simpl; try contradiction.
  - intros ->. reflexivity.
  - intro H. f_equal. induction H as [|v items Hv _ IH]; simpl; [reflexivity|].
    rewrite IH, orb_false_r. destruct v; try reflexivity.
    apply str_eqb_neq. apply Hv. reflexivity.
  - intros ->. reflexivity.
Qed.

Lemma stream_loop_passes_over (lim : Json.limits) (lines : list pystr) (acc : pystr) :
  Forall (passed_over lim) lines -> stream_loop lim lines acc = inr acc.
Proof.
  induction 1 as [|line lines Hline _ IH]; cbn [stream_loop]; [reflexivity|].
  destruct Hline as [->|(data & Hload & Hdata)]; [exact IH|].
  destruct line as [|c line]; [exact IH|].
  rewrite Hload, (carries_nothing_not_in _ Hdata). exact IH.
Qed.

Lemma type_error_value_fails (data : Json.value) (acc : pystr) :
  type_error_value data ->
  match py_in_response data with
  | inl e => e = TypeError
  | inr false => False
  | inr true =>
      match py_get_response data with
      | inl e => e = TypeError
      | inr v => py_iadd_str acc v = inl TypeError
      end
  end.
Proof.
  destruct data as [| | |s|items|pairs]; simpl; auto.
  - intros ->. reflexivity.
  - intro H. replace (existsb _ items) with true; [reflexivity|].
    symmetry. apply existsb_exists.
    apply Exists_exists in H as (v & Hin & ->).
    exists (Json.JStr (lit "response")). split; [exact Hin|apply str_eqb_refl].
  - intros (v & -> & Hv). destruct v; try reflexivity.
    exfalso. apply (Hv s). reflexivity.
Qed.

(** A line that decodes to such a value, after lines that are records, makes
    the loop raise [TypeError]. *)
Lemma stream_loop_type_error (lim : Json.limits) (pre post : list pystr) (line : pystr)
    (data : Json.value) :
  Forall (record_line lim) pre ->
  line <> [] ->
  Json.loads lim line = inr data ->
  type_error_value data ->
  stream_loop lim (pre ++ line :: post) [] = inl TypeError.
Proof.
  intros Hpre Hne Hload Hdata.
  rewrite stream_loop_app, (stream_loop_records [] Hpre).
  destruct line as [|c line]; [congruence|].
  cbn [stream_loop app]. rewrite Hload.
  pose proof (@type_error_value_fails data
                (concat (map (fun l => match spec_fragment lim l with
                                       | Some s => s
                                       | None => []
                                       end) pre)) Hdata) as H.
  destruct (py_in_response data) as [e|[|]]; [congruence| |contradiction].
  destruct (py_get_response data) as [e|v]; [congruence|].
  rewrite H. reflexivity.
Qed.

(** X10. The status code of the response is never looked at, and a line in
    which the loop finds no 'response' is passed over: when every line of
    the body is empty or decodes to a JSON object without the key
    'response' (or to a list without that element, or to a string without
    that substring), as the error body of the backend does, both generation
    methods return the empty string, whatever the status code. *)
Theorem fieldless_response_gives_empty (env : Env) (w : World) (s : pystr)
    (resp : Response) :
  Forall (passed_over (json_limits env (posts w))) (response_lines (text resp)) ->
  (http_post env (posts w) (question_request (self w) s) = inr resp ->
   generate_question env s w = (Ret [], posted w))
  /\ (http_post env (posts w) (answer_request (self w) s) = inr resp ->
      generate_answer env s w = (Ret [], posted w)).
Proof.
  intro Hlines. pose proof (stream_loop_passes_over [] Hlines) as Hloop.
  split; intro Hpost.
  - rewrite (generate_question_run _ _ _ Hpost), Hloop. reflexivity.
  - rewrite (generate_answer_run _ _ _ Hpost), Hloop. reflexivity.
Qed.

Lemma error_body_passed_over :
  Forall (passed_over Json.default_limits) (response_lines Cases.error_body).
Proof.
  replace (response_lines Cases.error_body) with [Cases.error_body]
    by (vm_compute; reflexivity).
  apply Forall_cons; [|apply Forall_nil].
  right. eexists. split; [vm_compute; reflexivity|]. vm_compute. reflexivity.
Qed.

Lemma fieldless_response_gives_empty_witness :
  generate_question Cases.not_found (lit "python programming") Scenario.questioner
  = (Ret [], posted Scenario.questioner)
  /\ generate_answer Cases.not_found (lit "what is Python?") Scenario.answerer
     = (Ret [], posted Scenario.answerer).
Proof.
  split.
  - apply (proj1 (@fieldless_response_gives_empty Cases.not_found Scenario.questioner
                    (lit "python programming")
                    {| status_code := 404; text := Cases.error_body |}
                    error_body_passed_over)).
    reflexivity.
  - apply (proj2 (@fieldless_response_gives_empty Cases.not_found Scenario.answerer
                    (lit "what is Python?")
                    {| status_code := 404; text := Cases.error_body |}
                    error_body_passed_over)).
    reflexivity.
Defined.

Lemma lstrip_spaces (s : pystr) :
  Forall (fun c => Str.is_space c = true) s -> Str.lstrip s = [].
Proof.
  induction 1 as [|c s Hc _ IH]; simpl; [reflexivity|]. rewrite Hc. exact IH.
Qed.

Lemma strip_spaces (s : pystr) :
  Forall (fun c => Str.is_space c = true) s -> Str.strip s = [].
Proof.
  intro H. unfold Str.strip, Str.rstrip. rewrite (lstrip_spaces H). reflexivity.
Qed.

(** X11. A body that is empty or holds only whitespace is no error: both
    generation methods return the empty string. *)
Theorem blank_response_gives_empty (env : Env) (w : World) (s : pystr)
    (resp : Response) :
  Forall (fun c => Str.is_space c = true) (text resp) ->
  (http_post env (posts w) (question_request (self w) s) = inr resp ->
   generate_question env s w = (Ret [], posted w))
  /\ (http_post env (posts w) (answer_request (self w) s) = inr resp ->
      generate_answer env s w = (Ret [], posted w)).
Proof.
  intro Hblank.
  assert (stream_loop (json_limits env (posts w)) (response_lines (text resp)) []
          = inr []) as Hloop.
  { unfold response_lines. rewrite (strip_spaces Hblank). reflexivity. }
  split; intro Hpost.
  - rewrite (generate_question_run _ _ _ Hpost), Hloop. reflexivity.
  - rewrite (generate_answer_run _ _ _ Hpost), Hloop. reflexivity.
Qed.

Lemma blank_response_gives_empty_witness :
  let env := Scenario.serving Cases.blank_body in
  generate_question env (lit "python programming") Scenario.questioner
  = (Ret [], posted Scenario.questioner)
  /\ generate_answer env (lit "what is Python?") Scenario.answerer
     = (Ret [], posted Scenario.answerer).
Proof.
  assert (Forall (fun c => Str.is_space c = true) Cases.blank_body) as H
    by (repeat constructor).
  split.
  - apply (proj1 (@blank_response_gives_empty (Scenario.serving Cases.blank_body)
                    Scenario.questioner (lit "python programming")
                    {| status_code := 200; text := Cases.blank_body |} H)).
    reflexivity.
  - apply (proj2 (@blank_response_gives_empty (Scenario.serving Cases.blank_body)
                    Scenario.answerer (lit "what is Python?")
                    {| status_code := 200; text := Cases.blank_body |} H)).
    reflexivity.
Defined.

Lemma skip_ws_all (s : pystr) :
  Forall (fun c => Json.is_ws c = true) s -> Json.skip_ws s = [].
Proof.
  induction 1 as [|c s Hc _ IH]; simpl; [reflexivity|]. rewrite Hc. exact IH.
Qed.

Lemma is_ws_cases (c : N) :
  Json.is_ws c = true -> c = 32%N \/ c = 9%N \/ c = 10%N \/ c = 13%N.
Proof.
  unfold Json.is_ws. rewrite !orb_true_iff, !N.eqb_eq. tauto.
Qed.

Lemma loads_whitespace (lim : Json.limits) (line : pystr) :
  Forall (fun c => Json.is_ws c = true) line -> Json.loads lim line = inl Json.Malformed.
Proof.
  intro H. destruct line as [|c line]; [reflexivity|].
  apply Forall_cons_iff in H as [Hc Hline].
  pose proof (skip_ws_all Hline) as Hskip.
  unfold Json.loads.
  destruct (is_ws_cases _ Hc) as [->|[->|[->| ->]]];
    cbv beta iota; cbn [Json.skip_ws Json.is_ws N.eqb Pos.eqb orb];
    rewrite Hskip; reflexivity.
Qed.

(** X12. Only a line that is exactly empty is passed over.  A line that is
    not empty but holds only JSON whitespace (the blank line of a body with
    CR LF line ends) makes both generation methods fail, with an exception
    that is not an [AgentError]. *)
Theorem whitespace_line_fails (env : Env) (w : World) (s line : pystr)
    (resp : Response) :
  In line (response_lines (text resp)) ->
  line <> [] ->
  Forall (fun c => Json.is_ws c = true) line ->
  (http_post env (posts w) (question_request (self w) s) = inr resp ->
   exists e, generate_question env s w = (Raise e, posted w) /\ is_AgentError e = false)
  /\ (http_post env (posts w) (answer_request (self w) s) = inr resp ->
      exists e, generate_answer env s w = (Raise e, posted w) /\ is_AgentError e = false).
Proof.
  intros Hin Hne Hws.
  destruct (@stream_loop_malformed (json_limits env (posts w)) _ [] line Json.Malformed
              Hin Hne (loads_whitespace _ Hws)) as [e He].
  assert (is_AgentError e = false) as Hf.
  { apply foreign_not_AgentError. apply (@stream_loop_error_foreign _ _ _ e He). }
  split; intro Hpost; exists e; split; auto.
  - rewrite (generate_question_run _ _ _ Hpost), He. reflexivity.
  - rewrite (generate_answer_run _ _ _ Hpost), He. reflexivity.
Qed.

Lemma crlf_lines :
  response_lines Cases.crlf_body
  = [qlit "{'response':'Hel'}" ++ [13%N]; [13%N]; qlit "{'response':'lo'}"].
Proof. vm_compute. reflexivity. Qed.

Lemma whitespace_line_fails_witness :
  let env := Scenario.serving Cases.crlf_body in
  (exists e, generate_question env (lit "python programming") Scenario.questioner
             = (Raise e, posted Scenario.questioner) /\ is_AgentError e = false)
  /\ (exists e, generate_answer env (lit "what is Python?") Scenario.answerer
                = (Raise e, posted Scenario.answerer) /\ is_AgentError e = false).
Proof.
  assert (In [13%N] (response_lines Cases.crlf_body)) as Hin
    by (rewrite crlf_lines; right; left; reflexivity).
  assert ([13%N] <> []) as Hne by discriminate.
  assert (Forall (fun c => Json.is_ws c = true) [13%N]) as Hws by (repeat constructor).
  split.
  - apply (proj1 (@whitespace_line_fails (Scenario.serving Cases.crlf_body)
                    Scenario.questioner (lit "python programming") [13%N]
                    {| status_code := 200; text := Cases.crlf_body |} Hin Hne Hws)).
    reflexivity.
  - apply (proj2 (@whitespace_line_fails (Scenario.serving Cases.crlf_body)
                    Scenario.answerer (lit "what is Python?") [13%N]
                    {| status_code := 200; text := Cases.crlf_body |} Hin Hne Hws)).
    reflexivity.
Defined.

Lemma broken_lines :
  response_lines Scenario.broken_body
  = [qlit "{'response':'Hel'}"; lit "<html>502</html>"].
Proof. vm_compute. reflexivity. Qed.

(** X14. A line that is valid JSON but not a record with a text fragment can
    still stop the call: after lines that are records, a line that decodes to
    a number, a boolean or null, to a string containing "response", to a list
    with the element "response", or to a record whose 'response' is not a
    string, makes both generation methods raise [TypeError]; what was
    assembled so far is not returned. *)
Theorem non_text_line_raises_type_error (env : Env) (w : World) (s line : pystr)
    (pre post : list pystr) (data : Json.value) (resp : Response) :
  response_lines (text resp) = pre ++ line :: post ->
  Forall (record_line (json_limits env (posts w))) pre ->
  line <> [] ->
  Json.loads (json_limits env (posts w)) line = inr data ->
  type_error_value data ->
  (http_post env (posts w) (question_request (self w) s) = inr resp ->
   generate_question env s w = (Raise TypeError, posted w))
  /\ (http_post env (posts w) (answer_request (self w) s) = inr resp ->
      generate_answer env s w = (Raise TypeError, posted w)).
Proof.
  intros Hlines Hpre Hne Hload Hdata.
  pose proof (stream_loop_type_error post Hpre Hne Hload Hdata) as Hloop.
  rewrite <- Hlines in Hloop.
  split; intro Hpost.
  - rewrite (generate_question_run _ _ _ Hpost), Hloop. reflexivity.
  - rewrite (generate_answer_run _ _ _ Hpost), Hloop. reflexivity.
Qed.

Lemma non_text_line_raises_type_error_witness :
  generate_question (Scenario.serving Cases.null_body) (lit "python programming")
    Scenario.questioner
  = (Raise TypeError, posted Scenario.questioner)
  /\ generate_answer (Scenario.serving Cases.number_body) (lit "what is Python?")
       Scenario.answerer
     = (Raise TypeError, posted Scenario.answerer).
Proof.
  split.
  - apply (proj1 (@non_text_line_raises_type_error (Scenario.serving Cases.null_body)
                    Scenario.questioner (lit "python programming") (lit "null")
                    [qlit "{'response':'Hel'}"] [] Json.JNull
                    {| status_code := 200; text := Cases.null_body |}
                    ltac:(vm_compute; reflexivity)
                    ltac:(apply Forall_cons; [|apply Forall_nil]; right; eexists;
                          split; [vm_compute; reflexivity|]; right; eexists;
                          vm_compute; reflexivity)
                    ltac:(discriminate)
                    ltac:(vm_compute; reflexivity)
                    I)).
    reflexivity.
  - apply (proj2 (@non_text_line_raises_type_error (Scenario.serving Cases.number_body)
                    Scenario.answerer (lit "what is Python?") Cases.number_body
                    [] [] (Json.JObj [(lit "response", Json.JNum (lit "5"))])
                    {| status_code := 200; text := Cases.number_body |}
                    ltac:(vm_compute; reflexivity)
                    ltac:(apply Forall_nil)
                    ltac:(discriminate)
                    ltac:(vm_compute; reflexivity)
                    ltac:(eexists; split; [vm_compute; reflexivity|]; discriminate))).
    reflexivity.
Defined.

(** ** A line that the decoder rejects, in general *)

(** X13. Whenever the response holds a non-empty line that [json.loads]
    rejects (as malformed, for an integer of too many digits, or for too
    deep a nesting), both generation methods fail after their one request,
    and the exception is the decoder's or the runtime's ([JSONDecodeError],
    [TypeError], [ValueError] or [RecursionError]): never an [OllamaError]
    or another [AgentError]. *)
Theorem rejected_line_fails_outside_taxonomy (env : Env) (w : World) (s line : pystr)
    (resp : Response) (err : Json.error) :
  In line (response_lines (text resp)) ->
  line <> [] ->
  Json.loads (json_limits env (posts w)) line = inl err ->
  (http_post env (posts w) (question_request (self w) s) = inr resp ->
   exists e, generate_question env s w = (Raise e, posted w)
             /\ foreign e
             /\ is_AgentError e = false)
  /\ (http_post env (posts w) (answer_request (self w) s) = inr resp ->
      exists e, generate_answer env s w = (Raise e, posted w)
                /\ foreign e
                /\ is_AgentError e = false).
Proof.
  intros Hin Hne Hload.
  destruct (@stream_loop_malformed (json_limits env (posts w)) _ [] line err
              Hin Hne Hload) as [e He].
  pose proof (@stream_loop_error_foreign _ _ _ e He) as Hkind.
  pose proof (foreign_not_AgentError Hkind) as Hf.
  split; intro Hpost; exists e; repeat split; auto.
  - rewrite (generate_question_run _ _ _ Hpost), He. reflexivity.
  - rewrite (generate_answer_run _ _ _ Hpost), He. reflexivity.
Qed.

Lemma rejected_line_fails_outside_taxonomy_witness :
  let env := Scenario.serving Scenario.broken_body in
  (exists e, generate_question env (lit "python programming") Scenario.questioner
             = (Raise e, posted Scenario.questioner)
             /\ foreign e
             /\ is_AgentError e = false)
  /\ (exists e, generate_answer env (lit "what is Python?") Scenario.answerer
                = (Raise e, posted Scenario.answerer)
                /\ foreign e
                /\ is_AgentError e = false).
Proof.
  assert (In (lit "<html>502</html>") (response_lines Scenario.broken_body)) as Hin
    by (rewrite broken_lines; right; left; reflexivity).
  assert (lit "<html>502</html>" <> []) as Hne by discriminate.
  assert (Json.loads Json.default_limits (lit "<html>502</html>") = inl Json.Malformed)
    as Hload by (vm_compute; reflexivity).
  split.
  - apply (proj1 (@rejected_line_fails_outside_taxonomy
                    (Scenario.serving Scenario.broken_body)
                    Scenario.questioner (lit "python programming")
                    (lit "<html>502</html>")
                    {| status_code := 200; text := Scenario.broken_body |}
                    Json.Malformed Hin Hne Hload)).
    reflexivity.
  - apply (proj2 (@rejected_line_fails_outside_taxonomy
                    (Scenario.serving Scenario.broken_body)
                    Scenario.answerer (lit "what is Python?")
                    (lit "<html>502</html>")
                    {| status_code := 200; text := Scenario.broken_body |}
                    Json.Malformed Hin Hne Hload)).
    reflexivity.
Defined.

(** The two limits of the interpreter at work: an integer of 4301 digits
    under 'response' raises [ValueError], and a value nested 1000 lists
    deep raises [RecursionError]. *)
Example limits_of_the_decoder :
  let digits := repeat 49%N 4301 in
  let nested := repeat 91%N 1000 ++ repeat 93%N 1000 in
  Json.loads Json.default_limits digits = inl Json.IntTooLong
  /\ Json.loads Json.default_limits nested = inl Json.TooDeep
  /\ fst (generate_question (Scenario.serving digits) (lit "python programming")
            Scenario.questioner) = Raise ValueError
  /\ fst (generate_answer (Scenario.serving nested) (lit "what is Python?")
            Scenario.answerer) = Raise RecursionError.
Proof. vm_compute. repeat split. Qed.

(** ** The result is trimmed *)

Lemma lstrip_split (s : pystr) :
  exists sp, s = sp ++ Str.lstrip s /\ Forall (fun c => Str.is_space c = true) sp.
Proof.
  induction s as [|c s (sp & Hs & Hsp)]; simpl.
  - exists []. auto.
  - destruct (Str.is_space c) eqn:E.
    + exists (c :: sp). split; [simpl; congruence|constructor; assumption].
    + exists []. auto.
Qed.

Lemma lstrip_head (s : pystr) (c : N) (r : pystr) :
  Str.lstrip s = c :: r -> Str.is_space c = false.
Proof.
  induction s as [|x s IH]; simpl; [discriminate|].
  destruct (Str.is_space x) eqn:E; [exact IH|].
  intro H. injection H as -> _. exact E.
Qed.

Lemma strip_trimmed (s : pystr) : trimmed (Str.strip s).
Proof.
  unfold Str.strip, Str.rstrip.
  set (t := Str.lstrip s).
  destruct (lstrip_split (rev t)) as (sp & Hrev & Hsp).
  destruct (Str.lstrip (rev t)) as [|c u] eqn:Eu; [exact I|].
  pose proof (lstrip_head _ Eu) as Hc.
  assert (t = rev u ++ c :: rev sp) as Ht.
  { rewrite <- (rev_involutive t), Hrev, rev_app_distr. simpl.
    rewrite <- app_assoc. reflexivity. }
  simpl rev. unfold trimmed.
  destruct (rev u ++ [c]) as [|x r] eqn:Ex.
  - destruct (rev u); discriminate.
  - split.
    + assert (exists r', t = x :: r') as [r' Hx].
      { replace (rev u ++ c :: rev sp) with ((rev u ++ [c]) ++ rev sp) in Ht
          by (rewrite <- app_assoc; reflexivity).
        rewrite Ex in Ht. simpl in Ht. eauto. }
      apply (lstrip_head s Hx).
    + rewrite <- Ex. rewrite last_last. exact Hc.
Qed.

(** X15. Whatever the backend sends, a text returned by [generate_question]
    or [generate_answer] neither starts nor ends with a whitespace
    character. *)
Theorem generated_text_is_trimmed (env : Env) (w : World) (s out : pystr) :
  (fst (generate_question env s w) = Ret out -> trimmed out)
  /\ (fst (generate_answer env s w) = Ret out -> trimmed out).
Proof.
  split; intro H.
  - destruct (http_post env (posts w) (question_request (self w) s)) as [k|resp] eqn:E.
    + unfold generate_question, bind, get_self, sent, post in H.
      unfold question_request in E. rewrite E in H. discriminate.
    + rewrite (generate_question_run _ _ _ E) in H.
      destruct (stream_loop (json_limits env (posts w)) (response_lines (text resp)) []);
        [discriminate|].
      injection H as <-. apply strip_trimmed.
  - destruct (http_post env (posts w) (answer_request (self w) s)) as [k|resp] eqn:E.
    + unfold generate_answer, bind, get_self, sent, post in H.
      unfold answer_request in E. rewrite E in H. discriminate.
    + rewrite (generate_answer_run _ _ _ E) in H.
      destruct (stream_loop (json_limits env (posts w)) (response_lines (text resp)) []);
        [discriminate|].
      injection H as <-. apply strip_trimmed.
Qed.

Lemma generated_text_is_trimmed_witness :
  trimmed (lit "Hello").
Proof.
  apply (proj1 (@generated_text_is_trimmed (Scenario.serving Scenario.hello_body)
                  Scenario.questioner (lit "python programming") (lit "Hello"))).
  vm_compute. reflexivity.
Defined.

(** ** Sending and receiving *)

(** X16. [send_message] only builds the message: whatever its arguments and
    its outcome, it leaves the sender's agent and mailbox as they are and
    sends nothing to the backend; it reads the clock once; it prints exactly
    one line when it returns and none when it raises. *)
Theorem send_only_builds (env : Env) (to body : pyval) (mt : option pyval) (w : World) :
  let r := send_message env to body mt w in
  self (snd r) = self w
  /\ posts (snd r) = posts w
  /\ history (snd r) = history w
  /\ ticks (snd r) = S (ticks w)
  /\ match fst r with
     | Ret m => stdout (snd r)
                = stdout w ++ [lit "Agent " ++ sender_id m ++ lit " sending message to "
                               ++ receiver_id m ++ lit ": " ++ content m]
     | Raise _ => stdout (snd r) = stdout w
     | Block => False
     end.
Proof.
  intro r. unfold r. rewrite send_message_run.
  destruct to as [s|], body as [c|], mt as [[t|]|];
    try destruct (printable (encoder w) (sending (self w) s c));
    simpl; repeat split.
Qed.

(** X17. Send, then receive.  Agent [a] builds a message for the identifier
    [to]: the call returns the message if standard output can print its
    line, and raises [CommunicationError] if not.  The message built for the
    identifier of agent [b] is put into [b]'s mailbox, at the tail, whenever
    that mailbox is not full (the call of [b] returns if its own line can be
    printed and raises [UnicodeEncodeError] if not); built for any other
    identifier, it is refused by [b] with [CommunicationError] and [b] is
    unchanged. *)
Theorem send_then_receive (env : Env) (wa wb : World) (to body kind : pystr) :
  let m := {| sender_id := agent_id (self wa); receiver_id := to; content := body;
              message_type := kind; timestamp := isoformat (clock env (ticks wa)) |} in
  let sent_out := send_message env (PStr to) (PStr body) (Some (PStr kind)) wa in
  (printable (encoder wa) (sending (self wa) to body) = true -> fst sent_out = Ret m)
  /\ (printable (encoder wa) (sending (self wa) to body) = false ->
      exists msg, fst sent_out = Raise (CommunicationError msg))
  /\ (to = agent_id (self wb) ->
      Queue.full (message_queue (self wb)) = false ->
      receive_message m wb
      = (if printable (encoder wb) (received_line m wb)
         then (Ret tt, enqueued m wb)
         else (Raise UnicodeEncodeError, queued m wb))
      /\ queue_of (snd (receive_message m wb)) = queue_of wb ++ [m])
  /\ (to <> agent_id (self wb) ->
      exists msg, receive_message m wb = (Raise (CommunicationError msg), wb)).
Proof.
  intros m sent_out. unfold sent_out. rewrite send_message_run. cbv iota beta.
  split; [intros ->; reflexivity|]. split; [intros ->; eexists; reflexivity|]. split.
  - intros Hto Hfull. rewrite (receive_room m wb Hto Hfull). split; [reflexivity|].
    destruct (printable (encoder wb) (received_line m wb)); reflexivity.
  - intro Hne. eexists. apply receive_wrong_recipient. exact Hne.
Qed.

Lemma send_then_receive_witness :
  let env := Scenario.serving Scenario.hello_body in
  let m := {| sender_id := lit "agent1"; receiver_id := lit "test_agent";
              content := lit "Hello"; message_type := lit "general";
              timestamp := isoformat (Scenario.noon 0) |} in
  fst (send_message env (PStr (lit "test_agent")) (PStr (lit "Hello"))
         (Some (PStr (lit "general"))) Scenario.agent1) = Ret m
  /\ queue_of (snd (receive_message m Scenario.test_agent))
     = queue_of Scenario.test_agent ++ [m]
  /\ (exists msg, receive_message m Scenario.answerer
                  = (Raise (CommunicationError msg), Scenario.answerer)).
Proof.
  split; [|split].
  - apply (proj1 (@send_then_receive (Scenario.serving Scenario.hello_body)
                    Scenario.agent1 Scenario.test_agent (lit "test_agent")
                    (lit "Hello") (lit "general"))).
    reflexivity.
  - apply (proj1 (proj2 (proj2 (@send_then_receive (Scenario.serving Scenario.hello_body)
                                  Scenario.agent1 Scenario.test_agent (lit "test_agent")
                                  (lit "Hello") (lit "general")))));
      reflexivity.
  - apply (proj2 (proj2 (proj2 (@send_then_receive (Scenario.serving Scenario.hello_body)
                                  Scenario.agent1 Scenario.answerer (lit "test_agent")
                                  (lit "Hello") (lit "general"))))).
    vm_compute. discriminate.
Defined.

(** ** The test programs *)

Ltac program_step :=
  cbv iota beta;
  cbn [agent_one agent_two console codec trace clock_reads requests
       fst snd self stdout encoder history ticks posts].

Ltac ascii_line := rewrite printable_ascii by reflexivity; program_step.

Lemma printable_sending (enc : N -> bool) (a : Agent) (to body : pystr) :
  printable enc (agent_id a) = true ->
  printable enc to = true ->
  printable enc body = true ->
  printable enc (sending a to body) = true.
Proof.
  intros Ha Ht Hb. unfold sending.
  rewrite !printable_app, Ha, Ht, Hb.
  rewrite !printable_ascii by reflexivity. reflexivity.
Qed.

Lemma printable_received (m : Message) (w : World) :
  printable (encoder w) (agent_id (self w)) = true ->
  printable (encoder w) (content m) = true ->
  printable (encoder w) (received_line m w) = true.
Proof.
  intros Ha Hc. unfold received_line.
  rewrite !printable_app, Ha, Hc.
  rewrite !printable_ascii by reflexivity. reflexivity.
Qed.

Lemma test_base_agent_run (env : Env) (p : Program) :
  test_base_agent env p
  = (Ret tt,
     {| agent_one := Script.agent1;
        agent_two := with_items Script.agent2 [Script.hello (clock env (clock_reads p))];
        console := console p ++ Script.base_lines;
        codec := codec p;
        trace := trace p;
        clock_reads := S (clock_reads p);
        requests := requests p |}).
Proof.
  unfold test_base_agent, tbind, tprint, create, on_one, on_two.
  program_step. ascii_line. ascii_line.
  rewrite send_message_run. program_step. ascii_line.
  rewrite receive_enqueues;
    [|reflexivity|reflexivity|apply printable_ascii; reflexivity].
  unfold enqueued. program_step. ascii_line. ascii_line.
  rewrite <- !app_assoc. reflexivity.
Qed.

Lemma test_error_handling_run (env : Env) (p : Program) :
  test_error_handling env p
  = (Ret tt,
     {| agent_one := with_items Script.test_agent
                       [Script.overflow_msg "msg1" (clock env (clock_reads p))];
        agent_two := agent_two p;
        console := console p ++ Script.overflow_lines;
        codec := codec p;
        trace := trace p;
        clock_reads := S (S (clock_reads p));
        requests := requests p |}).
Proof.
  unfold test_error_handling, except_queue_full, tbind, tprint, create_one, on_one.
  program_step. ascii_line. ascii_line.
  unfold Message_new, now, bind, ret. program_step.
  rewrite receive_enqueues;
    [|reflexivity|reflexivity|apply printable_ascii; reflexivity].
  unfold enqueued. program_step. ascii_line.
  rewrite receive_full; [|reflexivity|reflexivity].
  program_step. cbn [exn_str]. ascii_line.
  rewrite <- !app_assoc. reflexivity.
Qed.

Lemma test_qa_agents_run (env : Env) (fuel : nat) (p : Program) (r1 r2 : Response) :
  let question := spec_assemble (json_limits env (requests p)) (text r1) in
  let answer := spec_assemble (json_limits env (S (requests p))) (text r2) in
  http_post env (requests p)
    (question_request Script.questioner (lit "python programming")) = inr r1 ->
  Forall (record_line (json_limits env (requests p))) (response_lines (text r1)) ->
  http_post env (S (requests p)) (answer_request Script.answerer question) = inr r2 ->
  Forall (record_line (json_limits env (S (requests p)))) (response_lines (text r2)) ->
  printable (codec p) question = true ->
  printable (codec p) answer = true ->
  test_qa_agents env (S (S fuel)) p
  = (Ret tt,
     {| agent_one := Script.questioner;
        agent_two := Script.answerer;
        console := console p ++ Script.qa_lines question answer;
        codec := codec p;
        trace := trace p
                 ++ [Dispatched (Script.question question (clock env (clock_reads p)));
                     Returned (Script.question question (clock env (clock_reads p)))
                       (Some (Script.reply answer (clock env (S (clock_reads p)))))];
        clock_reads := S (S (clock_reads p));
        requests := S (S (requests p)) |}).
Proof.
  intros question answer Hq Hq_lines Ha Ha_lines Hpq Hpa.
  unfold test_qa_agents, tbind, tprint, create, on_one, on_two.
  program_step. ascii_line. ascii_line.
  match goal with
  | |- context [generate_question env ?t ?w] =>
      rewrite (@generate_question_run env t w r1 Hq)
  end.
  program_step.
  rewrite (stream_loop_records [] Hq_lines).
  cbn [app fst snd posted self stdout encoder history ticks posts]. program_step.
  fold (spec_assemble (json_limits env (requests p)) (text r1)). fold question.
  rewrite send_message_run. program_step.
  rewrite printable_sending;
    [|apply printable_ascii; reflexivity|apply printable_ascii; reflexivity|exact Hpq].
  program_step.
  rewrite receive_enqueues;
    [|reflexivity|reflexivity
     |apply printable_received; [apply printable_ascii; reflexivity|exact Hpq]].
  unfold enqueued. program_step.
  unfold process_messages.
  rewrite (@loop_cons (_handle_message env) (S fuel) _
             (Script.question question (clock env (clock_reads p))) []);
    [|reflexivity].
  rewrite (@at_dispatch_world
             (Script.question question (clock env (clock_reads p))) []);
    [|reflexivity].
  match goal with
  | |- context [_handle_message env ?m ?w] =>
      rewrite (@answer_handler_run env w m r2 eq_refl eq_refl Ha Ha_lines)
  end.
  program_step.
  fold answer.
  rewrite printable_sending;
    [|apply printable_ascii; reflexivity|apply printable_ascii; reflexivity|exact Hpa].
  program_step.
  rewrite loop_empty; [|reflexivity].
  cbn [fst snd self stdout encoder history ticks posts record sender_id content
       agent_one agent_two console codec trace clock_reads requests].
  unfold Script.qa_lines, Script.qa_opening.
  rewrite <- !app_assoc. reflexivity.
Qed.

Lemma test_qa_agents_backend_down (env : Env) (fuel : nat) (p : Program) (kind : pystr) :
  http_post env (requests p)
    (question_request Script.questioner (lit "python programming")) = inl kind ->
  test_qa_agents env fuel p
  = (Raise (HTTPError kind),
     {| agent_one := Script.questioner;
        agent_two := Script.answerer;
        console := console p ++ Script.qa_opening;
        codec := codec p;
        trace := trace p;
        clock_reads := clock_reads p;
        requests := S (requests p) |}).
Proof.
  intro Hq.
  unfold test_qa_agents, tbind, tprint, create, on_one, on_two.
  program_step. ascii_line. ascii_line.
  unfold generate_question, bind, get_self, sent, post.
  program_step.
  unfold question_request in Hq.
  change (base_url (Agent_init QuestionAgent (lit "questioner") None None))
    with (base_url Script.questioner).
  change (model (Agent_init QuestionAgent (lit "questioner") None None))
    with (model Script.questioner).
  change (timeout (Agent_init QuestionAgent (lit "questioner") None None))
    with (timeout Script.questioner).
  rewrite Hq.
  program_step.
  unfold Script.qa_opening. rewrite <- !app_assoc. reflexivity.
Qed.

(** X18. [test_qa_agents] with a backend that answers both requests with
    records, and a standard output that can print the question and the
    answer: the test returns after exactly two requests; the answerer has
    built the reply and printed that it sends it, but the reply is only the
    return value of the handler: at the end both mailboxes are empty, and the
    questioner has received and printed nothing. *)
Theorem qa_round_trip_drops_answer (env : Env) (fuel : nat) (p : Program)
    (r1 r2 : Response) :
  let question := spec_assemble (json_limits env (requests p)) (text r1) in
  let answer := spec_assemble (json_limits env (S (requests p))) (text r2) in
  http_post env (requests p)
    (question_request Script.questioner (lit "python programming")) = inr r1 ->
  Forall (record_line (json_limits env (requests p))) (response_lines (text r1)) ->
  http_post env (S (requests p)) (answer_request Script.answerer question) = inr r2 ->
  Forall (record_line (json_limits env (S (requests p)))) (response_lines (text r2)) ->
  printable (codec p) question = true ->
  printable (codec p) answer = true ->
  let asked := Script.question question (clock env (clock_reads p)) in
  let r := test_qa_agents env (S (S fuel)) p in
  fst r = Ret tt
  /\ requests (snd r) = S (S (requests p))
  /\ Queue.items (message_queue (agent_one (snd r))) = []
  /\ Queue.items (message_queue (agent_two (snd r))) = []
  /\ console (snd r) = console p ++ Script.qa_lines question answer
  /\ trace (snd r)
     = trace p ++ [Dispatched asked;
                   Returned asked (Some (Script.reply answer
                                           (clock env (S (clock_reads p)))))].
Proof.
  intros question answer Hq Hql Ha Hal Hpq Hpa asked r.
  unfold r. rewrite (@test_qa_agents_run env fuel p r1 r2 Hq Hql Ha Hal Hpq Hpa).
  repeat split.
Qed.

Lemma qa_round_trip_drops_answer_witness :
  let env := Scenario.serving Scenario.hello_body in
  let p := {| agent_one := Script.agent1; agent_two := Script.agent2; console := [];
              codec := utf8; trace := []; clock_reads := 0; requests := 0 |} in
  let asked := Script.question (lit "Hello") (Scenario.noon 0) in
  let r := test_qa_agents env 2 p in
  fst r = Ret tt
  /\ requests (snd r) = 2
  /\ Queue.items (message_queue (agent_one (snd r))) = []
  /\ Queue.items (message_queue (agent_two (snd r))) = []
  /\ console (snd r) = Script.qa_lines (lit "Hello") (lit "Hello")
  /\ trace (snd r)
     = [Dispatched asked; Returned asked (Some (Script.reply (lit "Hello") (Scenario.noon 1)))].
Proof.
  assert (printable utf8 (spec_assemble Json.default_limits Scenario.hello_body) = true)
    as Hp by (rewrite hello_assembles; reflexivity).
  pose proof (@qa_round_trip_drops_answer (Scenario.serving Scenario.hello_body) 0
                {| agent_one := Script.agent1; agent_two := Script.agent2; console := [];
                   codec := utf8; trace := []; clock_reads := 0; requests := 0 |}
                {| status_code := 200; text := Scenario.hello_body |}
                {| status_code := 200; text := Scenario.hello_body |}
                eq_refl hello_lines_are_records eq_refl hello_lines_are_records
                Hp Hp) as H.
  cbv zeta in H. cbn [text requests json_limits Scenario.serving] in H.
  rewrite hello_assembles in H. exact H.
Defined.

(** X19. The module run as a script, when the first request to the backend
    fails in the HTTP client: the script ends with that exception after the
    first test and the opening lines of the second; the error-handling test
    is never run. *)
Theorem script_stops_when_backend_down (env : Env) (fuel : nat) (p : Program)
    (kind : pystr) :
  http_post env (requests p)
    (question_request Script.questioner (lit "python programming")) = inl kind ->
  let r := main env fuel p in
  fst r = Raise (HTTPError kind)
  /\ console (snd r) = console p ++ Script.base_lines ++ [separator] ++ Script.qa_opening
  /\ ~ In (lit "Running Error Handling Tests...") (Script.base_lines ++ [separator]
                                                     ++ Script.qa_opening)
  /\ requests (snd r) = S (requests p).
Proof.
  intros Hq r. unfold r, main, tbind.
  rewrite test_base_agent_run. unfold tprint.
  program_step. ascii_line.
  match goal with
  | |- context [test_qa_agents env fuel ?q] =>
      rewrite (@test_qa_agents_backend_down env fuel q kind Hq)
  end.
  program_step.
  rewrite <- !app_assoc.
  repeat split.
  vm_compute. intuition discriminate.
Qed.

Lemma script_stops_when_backend_down_witness :
  let p := {| agent_one := Script.agent1; agent_two := Script.agent2; console := [];
              codec := utf8; trace := []; clock_reads := 0; requests := 0 |} in
  let r := main Cases.timing_out 2 p in
  fst r = Raise (HTTPError (lit "ReadTimeout"))
  /\ console (snd r) = console p ++ Script.base_lines ++ [separator] ++ Script.qa_opening
  /\ ~ In (lit "Running Error Handling Tests...") (Script.base_lines ++ [separator]
                                                     ++ Script.qa_opening)
  /\ requests (snd r) = 1.
Proof.
  apply (@script_stops_when_backend_down Cases.timing_out 2
           {| agent_one := Script.agent1; agent_two := Script.agent2; console := [];
              codec := utf8; trace := []; clock_reads := 0; requests := 0 |}
           (lit "ReadTimeout")).
  reflexivity.
Defined.

(** X20. The module run as a script, with a backend that answers both
    requests with records and a standard output that can print the question
    and the answer: the script returns; it has read the clock five times and
    sent two requests; and it has printed exactly the lines of the three
    tests, with the generated question and answer in the second. *)
Theorem script_output (env : Env) (fuel : nat) (p : Program) (r1 r2 : Response) :
  let question := spec_assemble (json_limits env (requests p)) (text r1) in
  let answer := spec_assemble (json_limits env (S (requests p))) (text r2) in
  http_post env (requests p)
    (question_request Script.questioner (lit "python programming")) = inr r1 ->
  Forall (record_line (json_limits env (requests p))) (response_lines (text r1)) ->
  http_post env (S (requests p)) (answer_request Script.answerer question) = inr r2 ->
  Forall (record_line (json_limits env (S (requests p)))) (response_lines (text r2)) ->
  printable (codec p) question = true ->
  printable (codec p) answer = true ->
  let r := main env (S (S fuel)) p in
  fst r = Ret tt
  /\ console (snd r)
     = console p ++ Script.base_lines ++ [separator]
       ++ Script.qa_lines question answer
       ++ [separator; lit "Running Error Handling Tests..."]
       ++ Script.overflow_lines
  /\ clock_reads (snd r) = 5 + clock_reads p
  /\ requests (snd r) = 2 + requests p.
Proof.
  intros question answer Hq Hql Ha Hal Hpq Hpa r. unfold r, main, tbind.
  rewrite test_base_agent_run. unfold tprint.
  program_step. ascii_line.
  match goal with
  | |- context [test_qa_agents env (S (S fuel)) ?q] =>
      rewrite (@test_qa_agents_run env fuel q r1 r2 Hq Hql Ha Hal Hpq Hpa)
  end.
  program_step. ascii_line. ascii_line.
  rewrite test_error_handling_run.
  program_step.
  rewrite <- !app_assoc.
  repeat split.
Qed.

Lemma script_output_witness :
  let env := Scenario.serving Scenario.hello_body in
  let p := {| agent_one := Script.agent1; agent_two := Script.agent2; console := [];
              codec := utf8; trace := []; clock_reads := 0; requests := 0 |} in
  let r := main env 2 p in
  fst r = Ret tt
  /\ console (snd r)
     = Script.base_lines ++ [separator]
       ++ Script.qa_lines (lit "Hello") (lit "Hello")
       ++ [separator; lit "Running Error Handling Tests..."]
       ++ Script.overflow_lines
  /\ clock_reads (snd r) = 5
  /\ requests (snd r) = 2.
Proof.
  assert (printable utf8 (spec_assemble Json.default_limits Scenario.hello_body) = true)
    as Hp by (rewrite hello_assembles; reflexivity).
  pose proof (@script_output (Scenario.serving Scenario.hello_body) 0
                {| agent_one := Script.agent1; agent_two := Script.agent2; console := [];
                   codec := utf8; trace := []; clock_reads := 0; requests := 0 |}
                {| status_code := 200; text := Scenario.hello_body |}
                {| status_code := 200; text := Scenario.hello_body |}
                eq_refl hello_lines_are_records eq_refl hello_lines_are_records
                Hp Hp) as H.
  cbv zeta in H. cbn [text requests json_limits Scenario.serving] in H.
  rewrite hello_assembles in H. exact H.
Defined.

(** ** An [AnswerAgent] and a mailbox of questions *)

Lemma well_served_with_items (env : Env) (enc : N -> bool) (a : Agent)
    (q : list Message) (n : nat) (qs : list Message) (answers : list pystr) :
  well_served env enc a n qs answers -> well_served env enc (with_items a q) n qs answers.
Proof.
  revert n answers. induction qs as [|m qs IH]; intros n [|x answers]; simpl; auto.
  intros (Ht & Hr & Hp & Hrest). repeat split; auto.
Qed.

Lemma replies_with_items (env : Env) (a : Agent) (q : list Message) (t : nat)
    (qs : list Message) (answers : list pystr) :
  replies env (with_items a q) t qs answers = replies env a t qs answers.
Proof.
  revert t answers. induction qs as [|m qs IH]; intros t [|x answers]; simpl; auto.
  rewrite IH. reflexivity.
Qed.

Lemma well_served_length (env : Env) (enc : N -> bool) (a : Agent) (n : nat)
    (qs : list Message) (answers : list pystr) :
  well_served env enc a n qs answers -> List.length answers = List.length qs.
Proof.
  revert n answers. induction qs as [|m qs IH]; intros n [|x answers]; simpl;
    try tauto.
  intros (_ & _ & _ & Hrest). f_equal. exact (IH _ _ Hrest).
Qed.

Lemma answerer_serves_run (env : Env) (fuel : nat) (w : World) (answers : list pystr) :
  cls (self w) = AnswerAgent ->
  well_served env (encoder w) (self w) (posts w) (queue_of w) answers ->
  List.length (queue_of w) < fuel ->
  process_messages env fuel w
  = (Ret tt,
     {| self := with_items (self w) [];
        stdout := stdout w
                  ++ map sending_line (replies env (self w) (ticks w) (queue_of w) answers);
        encoder := encoder w;
        history := history w
                   ++ answered (queue_of w)
                        (replies env (self w) (ticks w) (queue_of w) answers);
        ticks := ticks w + List.length (queue_of w);
        posts := posts w + List.length (queue_of w) |}).
Proof.
  revert w answers. induction fuel as [|fuel IH]; intros w answers Hc Hs Hf; [lia|].
  unfold process_messages in *.
  destruct (queue_of w) as [|m rest] eqn:Q.
  - rewrite (loop_empty _ _ _ Q).
    destruct answers; [|contradiction].
    destruct w as [[k i md [mx it] b t] o en h tk ps].
    unfold queue_of in Q. simpl in Q. subst it.
    simpl. rewrite !app_nil_r, !Nat.add_0_r. reflexivity.
  - destruct answers as [|x answers]; [contradiction|].
    destruct Hs as (Ht & (r & Hr & Hlines & ->) & Hp & Hrest).
    rewrite (loop_cons _ _ _ Q), (at_dispatch_world _ Q).
    match goal with
    | |- context [_handle_message env m ?v] =>
        rewrite (@answer_handler_run env v m r Hc Ht Hr Hlines)
    end.
    cbn [fst snd self stdout encoder history ticks posts].
    change (sending (with_items (self w) rest) (sender_id m)
              (spec_assemble (json_limits env (posts w)) (text r)))
      with (sending (self w) (sender_id m)
              (spec_assemble (json_limits env (posts w)) (text r))).
    rewrite Hp.
    cbn [fst snd self stdout encoder history ticks posts record].
    match goal with
    | |- process_messages_with _ fuel ?v = _ =>
        rewrite (IH v answers Hc
                   (@well_served_with_items env (encoder w) (self w) rest (S (posts w))
                      rest answers Hrest))
    end; [|unfold queue_of; simpl; simpl in Hf; lia].
    unfold queue_of. cbn [self stdout encoder history ticks posts with_items
                          message_queue Queue.items agent_id].
    rewrite replies_with_items.
    cbn [replies answered map List.length sending_line sender_id receiver_id content].
    unfold sending. cbn [agent_id with_items].
    rewrite <- !app_assoc, !Nat.add_succ_r. reflexivity.
Qed.

(** X21. An [AnswerAgent] whose mailbox holds only questions, with a backend
    that answers each request with records and a standard output that can
    print the line of each reply: [process_messages] returns after one
    request and one clock reading per question; the replies are built in
    mailbox order, each addressed to the sender of its question, and one
    line per reply is printed in that order; the mailbox ends empty. *)
Theorem answerer_serves_in_order (env : Env) (fuel : nat) (w : World)
    (answers : list pystr) :
  cls (self w) = AnswerAgent ->
  well_served env (encoder w) (self w) (posts w) (queue_of w) answers ->
  List.length (queue_of w) < fuel ->
  let rs := replies env (self w) (ticks w) (queue_of w) answers in
  let r := process_messages env fuel w in
  fst r = Ret tt
  /\ queue_of (snd r) = []
  /\ posts (snd r) = posts w + List.length (queue_of w)
  /\ ticks (snd r) = ticks w + List.length (queue_of w)
  /\ stdout (snd r) = stdout w ++ map sending_line rs
  /\ history (snd r) = history w ++ answered (queue_of w) rs
  /\ map receiver_id rs = map sender_id (queue_of w)
  /\ map content rs = answers.
Proof.
  intros Hc Hs Hf rs r. unfold r.
  rewrite (@answerer_serves_run env fuel w answers Hc Hs Hf).
  pose proof (@well_served_length env (encoder w) (self w) (posts w) (queue_of w)
                answers Hs) as Hl.
  repeat split.
  - unfold rs. clear -Hl. revert answers Hl. generalize (ticks w).
    induction (queue_of w) as [|m q IH]; intros t [|x answers] Hl; simpl in *;
      try discriminate; auto.
    f_equal. apply IH. lia.
  - unfold rs. clear -Hl. revert answers Hl. generalize (ticks w).
    induction (queue_of w) as [|m q IH]; intros t [|x answers] Hl; simpl in *;
      try discriminate; auto.
    f_equal. apply IH. lia.
Qed.

Lemma two_questions_queue :
  queue_of Cases.two_questions
  = [Scenario.msg "Q" "A" "topic" "question";
     Scenario.msg "R" "A" "other topic" "question"].
Proof. vm_compute. reflexivity. Qed.

Lemma two_questions_served :
  well_served (Scenario.serving Scenario.hello_body) (encoder Cases.two_questions)
    (self Cases.two_questions) (posts Cases.two_questions)
    (queue_of Cases.two_questions) [lit "Hello"; lit "Hello"].
Proof.
  rewrite two_questions_queue. cbn [well_served].
  split; [reflexivity|]. split.
  { exists {| status_code := 200; text := Scenario.hello_body |}.
    split; [reflexivity|]. split; [exact hello_lines_are_records|].
    symmetry. exact hello_assembles. }
  split; [vm_compute; reflexivity|].
  split; [reflexivity|]. split; [|split; [vm_compute; reflexivity|exact I]].
  exists {| status_code := 200; text := Scenario.hello_body |}.
  split; [reflexivity|]. split; [exact hello_lines_are_records|].
  symmetry. exact hello_assembles.
Qed.

Lemma answerer_serves_in_order_witness :
  let env := Scenario.serving Scenario.hello_body in
  let w := Cases.two_questions in
  let rs := replies env (self w) (ticks w) (queue_of w) [lit "Hello"; lit "Hello"] in
  let r := process_messages env 3 w in
  fst r = Ret tt
  /\ queue_of (snd r) = []
  /\ posts (snd r) = posts w + List.length (queue_of w)
  /\ ticks (snd r) = ticks w + List.length (queue_of w)
  /\ stdout (snd r) = stdout w ++ map sending_line rs
  /\ history (snd r) = history w ++ answered (queue_of w) rs
  /\ map receiver_id rs = map sender_id (queue_of w)
  /\ map content rs = [lit "Hello"; lit "Hello"].
Proof.
  apply (@answerer_serves_in_order (Scenario.serving Scenario.hello_body) 3
           Cases.two_questions [lit "Hello"; lit "Hello"]).
  - reflexivity.
  - exact two_questions_served.
  - rewrite two_questions_queue. simpl. lia.
Defined.

(** ** Text that standard output cannot encode *)

(** A lone surrogate, which UTF-8 cannot encode, in the content of a
    message: [receive_message] raises [UnicodeEncodeError] after it has put
    the message into the mailbox, and [send_message] raises
    [CommunicationError] and returns no message. *)
Example surrogate_content :
  let env := Scenario.serving Scenario.hello_body in
  let m := {| sender_id := lit "sender"; receiver_id := lit "test_agent";
              content := [55296%N]; message_type := lit "general";
              timestamp := lit "2024-03-09T11:59:59" |} in
  receive_message m Scenario.test_agent
  = (Raise UnicodeEncodeError, queued m Scenario.test_agent)
  /\ queue_of (queued m Scenario.test_agent) = [m]
  /\ stdout (queued m Scenario.test_agent) = []
  /\ fst (send_message env (PStr (lit "agent2")) (PStr [55296%N]) None Scenario.agent1)
     = Raise (CommunicationError
                (lit "Failed to send message: codec can't encode character")).
Proof. vm_compute. repeat split. Qed.

(** The same character in the answer of the backend, written as a JSON
    escape: the line is a record, the answer is assembled, and the handler
    of the [AnswerAgent] fails in [send_message]; [process_messages] raises
    and the question is lost. *)
Example surrogate_answer :
  let body := qlit "{'response':'\ud800'}" in
  let env := Scenario.serving body in
  let r := process_messages env 2 Scenario.answerer in
  spec_assemble Json.default_limits body = [55296%N]
  /\ fst (generate_answer env (lit "topic") Scenario.answerer) = Ret [55296%N]
  /\ fst r = Raise (CommunicationError
                      (lit "Failed to send message: codec can't encode character"))
  /\ queue_of (snd r) = []
  /\ stdout (snd r) = stdout Scenario.answerer.
Proof. vm_compute. repeat split. Qed.

(** An integer of 4301 digits in a record that also carries a fragment: the
    line is no record for the decoder, and the call raises [ValueError]. *)
Example long_integer_in_record :
  let body := qlit "{'response':'Hel','n':" ++ repeat 49%N 4301 ++ lit "}" in
  Json.loads Json.default_limits body = inl Json.IntTooLong
  /\ generate_question (Scenario.serving body) (lit "python programming")
       Scenario.questioner
     = (Raise ValueError, posted Scenario.questioner).
Proof. vm_compute. repeat split. Qed.
